(** * isso.db: connection pool, transactions and schema migration

    A shallow embedding of [isso/db/__init__.py]:

    - [Pool]      the class [SQLite3]: one connection handle per thread,
                  opened lazily, closed explicitly;
    - [Engine]    the part of an sqlite3 connection the module relies on:
                  an isolation level, the committed database, the working
                  copy of an open transaction, and the statements the
                  adapter issues;
    - [Run]       computations over one connection and the log, which
                  return, raise, or run out of fuel;
    - [Txn]       the context manager [Transaction];
    - [Adapter]   the class [Adapter]: bootstrap and [migrate].

    The pool is modelled by the statements it sends to which connection;
    the adapter, which always goes through the calling thread's
    connection, is modelled over that one connection and the database
    behind it. *)

From stdpp Require Import gmap strings list fin_maps.
From Stdlib Require Import ZArith Lia.

Local Open Scope Z_scope.

(** ** Python outcomes *)

(** The exceptions the module can meet. *)
Inductive exn : Type :=
  | AttributeError      (* attribute access on a missing slot or on None *)
  | ProgrammingError    (* sqlite3: operation on a closed connection *)
  | OperationalError    (* sqlite3: locked database, nested BEGIN, I/O,
                           missing table *)
  | NoOptionError       (* configuration: option not defined *)
  | Failure (msg : string).  (* anything a caller's block raises *)

(** A call either returns a value or raises. *)
Inductive result (A : Type) : Type :=
  | Val (a : A)
  | Exc (e : exn).
Arguments Val {A} a.
Arguments Exc {A} e.

Definition raised {A} (r : result A) : bool :=
  match r with Val _ => false | Exc _ => true end.

(** Bound parameters of a statement. *)
Inductive value : Type :=
  | VNull
  | VInt (n : Z)
  | VText (s : string)
  | VBlob (b : list Z).

(** ** The connection pool ([class SQLite3]) *)

Module Pool.

Definition thread := nat.
Definition handle_id := nat.

(** What the pool can observe of an sqlite3 connection object: whether it
    is still open, and the statements that were sent to it, oldest
    first. *)
Record handle : Type := Handle {
  is_open : bool;
  sent : list (string * list value)
}.

(** [heap] holds every connection object ever created, indexed by
    identity.  [slots] is [self.local]: a thread that never assigned
    [conn] has no entry ([hasattr] is false), [Some None] is
    [conn = None], [Some (Some h)] is a connection object. *)
Record pool : Type := MkPool {
  heap : list handle;
  slots : gmap thread (option handle_id)
}.

Definition empty : pool := {| heap := []; slots := ∅ |}.

(** The [sql] argument of [execute]: one statement, or a list/tuple of
    fragments. *)
Inductive sql_arg : Type :=
  | Statement (s : string)
  | Fragments (fs : list string).

(** [' '.join(sql)] *)
Definition join (fs : list string) : string := String.concat " " fs.

(** [if isinstance(sql, (list, tuple)): sql = ' '.join(sql)] *)
Definition sql_text (sql : sql_arg) : string :=
  match sql with
  | Statement s => s
  | Fragments fs => join fs
  end.

(** [connect]: [self.local.conn = sqlite3.connect(...)].  The lock makes
    the assignment one atomic step. *)
Definition connect (t : thread) (p : pool) : pool :=
  {| heap := heap p ++ [Handle true []];
     slots := <[t := Some (length (heap p))]> (slots p) |}.

(** [sqlite3.Connection.close] on the object [h]. *)
Definition close_handle (h : handle_id) (hp : list handle) : list handle :=
  match hp !! h with
  | Some hd => <[h := Handle false (sent hd)]> hp
  | None => hp
  end.

(** [close]: [self.local.conn.close(); self.local.conn = None].
    Reading [self.local.conn] raises when the attribute is missing and
    [None.close] raises when it is [None]; the [with] releases the lock
    either way. *)
Definition close (t : thread) (p : pool) : pool * result unit :=
  match slots p !! t with
  | None => (p, Exc AttributeError)
  | Some None => (p, Exc AttributeError)
  | Some (Some h) =>
      ({| heap := close_handle h (heap p);
          slots := <[t := None]> (slots p) |}, Val tt)
  end.

(** The property [connection]. *)
Definition connection (t : thread) (p : pool) : pool * option handle_id :=
  match slots p !! t with
  | None | Some None =>
      let p' := connect t p in (p', default None (slots p' !! t))
  | Some (Some h) => (p, Some h)
  end.

(** [sqlite3.Connection.execute(sql, args)] on the object [h]: refused on
    a closed connection, recorded otherwise. *)
Definition handle_execute (h : handle_id) (s : string) (args : list value)
    (hp : list handle) : list handle * result handle_id :=
  match hp !! h with
  | Some hd =>
      if is_open hd
      then (<[h := Handle true (sent hd ++ [(s, args)])]> hp, Val h)
      else (hp, Exc ProgrammingError)
  | None => (hp, Exc ProgrammingError)
  end.

(** [execute]; the result names the connection that ran the statement. *)
Definition execute (t : thread) (sql : sql_arg) (args : list value)
    (p : pool) : pool * result handle_id :=
  let s := sql_text sql in
  match connection t p with
  | (p1, Some h) =>
      let '(hp, r) := handle_execute h s args (heap p1) in
      ({| heap := hp; slots := slots p1 |}, r)
  | (p1, None) => (p1, Exc AttributeError)
  end.

(** The calls a program can make on a pool. *)
Inductive call : Type :=
  | Connect (t : thread)
  | Close (t : thread)
  | Execute (t : thread) (sql : sql_arg) (args : list value).

Definition step (c : call) (p : pool) : pool :=
  match c with
  | Connect t => connect t p
  | Close t => fst (close t p)
  | Execute t sql args => fst (execute t sql args p)
  end.

(** Calls are listed in the order they happen. *)
Definition run (cs : list call) (p : pool) : pool :=
  foldl (fun q c => step c q) p cs.

(** Every slot that holds a connection holds one that is open. *)
Definition slots_open (p : pool) : Prop :=
  ∀ t h, slots p !! t = Some (Some h) →
    ∃ hd, heap p !! h = Some hd ∧ is_open hd = true.

(** The invariant of the pool: a slot that holds a connection holds an
    open one, and no two threads hold the same connection. *)
Definition pool_inv (p : pool) : Prop :=
  slots_open p ∧
  ∀ t1 t2 h, slots p !! t1 = Some (Some h) → slots p !! t2 = Some (Some h) →
    t1 = t2.

End Pool.

(** ** The database and one sqlite3 connection to it *)

Module Engine.

(** A row of [comments].  The migration reads [id] and [parent] and
    writes [parent] and [voters]; the remaining columns travel along in
    [columns]. *)
Record comment : Type := Comment {
  id : Z;
  parent : option Z;          (* [None] is SQL NULL *)
  voters : list Z;            (* the bloom filter blob *)
  columns : list value
}.

Record database : Type := Database {
  user_version : Z;                     (* [PRAGMA user_version] *)
  tables : list string;                 (* table names in sqlite_master *)
  triggers : list string;
  comments : list comment;
  preferences : list (string * string)  (* rows (key, value) *)
}.

Definition with_version (v : Z) (d : database) : database :=
  Database v (tables d) (triggers d) (comments d) (preferences d).
Definition with_triggers (ts : list string) (d : database) : database :=
  Database (user_version d) (tables d) ts (comments d) (preferences d).
Definition with_comments (cs : list comment) (d : database) : database :=
  Database (user_version d) (tables d) (triggers d) cs (preferences d).
Definition with_preferences (ps : list (string * string)) (d : database)
    : database :=
  Database (user_version d) (tables d) (triggers d) (comments d) ps.

(** A connection: [committed] is what the file holds, [pending] the
    working copy of the transaction this connection has open, if any.
    [isolation_level = None] is the manual mode [connect] asks for.
    Statements follow SQLite's transaction rules: after BEGIN they touch
    the working copy, COMMIT publishes it, ROLLBACK drops it; the schema
    version lives in the database and is covered like any row.  The rows
    of [comments] are those of a table that exists; the catalog is what
    the bootstrap query, CREATE TRIGGER and the statement on
    [preferences] consult. *)
Record connection : Type := Connection {
  isolation_level : option string;
  committed : database;
  pending : option database;
  total_changes : nat
}.

Definition with_isolation (l : option string) (c : connection) : connection :=
  Connection l (committed c) (pending c) (total_changes c).
Definition with_pending (p : option database) (c : connection) : connection :=
  Connection (isolation_level c) (committed c) p (total_changes c).

(** The database as statements on this connection see it. *)
Definition view (c : connection) : database :=
  default (committed c) (pending c).

(** A statement that changes [n] rows and leaves the database [d]: inside
    a transaction it touches the working copy only, outside it is
    committed at once. *)
Definition store (d : database) (n : nat) (c : connection) : connection :=
  match pending c with
  | Some _ => Connection (isolation_level c) (committed c) (Some d)
                (total_changes c + n)%nat
  | None => Connection (isolation_level c) d None (total_changes c + n)%nat
  end.

(** The three places where the engine may refuse: taking the write lock,
    committing, rolling back. *)
Record faults : Type := Faults {
  begin_raises : connection → bool;
  commit_raises : connection → bool;
  rollback_raises : connection → bool
}.

Definition no_faults : faults :=
  Faults (λ _, false) (λ _, false) (λ _, false).

(** [BEGIN IMMEDIATE]; transactions do not nest. *)
Definition begin_immediate (F : faults) (c : connection)
    : connection * result unit :=
  match pending c with
  | Some _ => (c, Exc OperationalError)
  | None =>
      if begin_raises F c then (c, Exc OperationalError)
      else (with_pending (Some (committed c)) c, Val tt)
  end.

(** [commit()] and the statement COMMIT: nothing to do, and nothing to
    refuse, when no transaction is open; a refused commit leaves the
    transaction open. *)
Definition commit (F : faults) (c : connection) : connection * result unit :=
  match pending c with
  | None => (c, Val tt)
  | Some d =>
      if commit_raises F c then (c, Exc OperationalError)
      else (Connection (isolation_level c) d None (total_changes c), Val tt)
  end.

(** [rollback()]: likewise. *)
Definition rollback (F : faults) (c : connection)
    : connection * result unit :=
  match pending c with
  | None => (c, Val tt)
  | Some _ =>
      if rollback_raises F c then (c, Exc OperationalError)
      else (with_pending None c, Val tt)
  end.

(** The assignment [con.isolation_level = l].  sqlite3 stores the level
    and, when the level is [None], goes on to issue COMMIT, so that a
    transaction still open is committed; a refused COMMIT makes the
    assignment raise, with the level already stored. *)
Definition set_isolation_level (F : faults) (l : option string)
    (c : connection) : connection * result unit :=
  match l with
  | None => commit F (with_isolation None c)
  | Some _ => (with_isolation l c, Val tt)
  end.

(** *** The statements the adapter issues, as functions on a database *)

(** [SELECT id FROM comments WHERE parent IS NULL] *)
Definition select_top (d : database) : list Z :=
  id <$> filter (λ c, parent c = None) (comments d).

(** [SELECT id FROM comments WHERE parent=?] *)
Definition select_children (p : Z) (d : database) : list Z :=
  id <$> filter (λ c, parent c = Some p) (comments d).

Definition set_parent (p : Z) (c : comment) : comment :=
  Comment (id c) (Some p) (voters c) (columns c).

(** [UPDATE comments SET parent=? WHERE id=?] *)
Definition update_parent (p n : Z) (d : database) : database :=
  with_comments
    ((λ c, if bool_decide (id c = n) then set_parent p c else c)
       <$> comments d) d.
Definition update_parent_rows (n : Z) (d : database) : nat :=
  length (filter (λ c, id c = n) (comments d)).

(** [UPDATE comments SET voters=?] *)
Definition update_voters (bf : list Z) (d : database) : database :=
  with_comments
    ((λ c, Comment (id c) (parent c) bf (columns c)) <$> comments d) d.

(** What [UPDATE preferences SET value=? WHERE key=?] makes of the
    rows: those that exist are rewritten, none is added. *)
Definition set_preference (v k : string) (d : database) : database :=
  with_preferences
    ((λ r, if bool_decide (r.1 = k) then (r.1, v) else r)
       <$> preferences d) d.

(** The statement [UPDATE preferences SET value=? WHERE key=?]: [None]
    is the error "no such table: preferences". *)
Definition update_preference (v k : string) (d : database)
    : option database :=
  if bool_decide ("preferences" ∈ tables d)
  then Some (set_preference v k d) else None.
Definition update_preference_rows (k : string) (d : database) : nat :=
  length (filter (λ r, r.1 = k) (preferences d)).

(** [SELECT value FROM preferences WHERE key=?], first row. *)
Definition preference (k : string) (d : database) : option string :=
  snd <$> head (filter (λ r, r.1 = k) (preferences d)).

Definition core_tables : list string := ["threads"; "comments"; "preferences"].

(** [SELECT name FROM sqlite_master WHERE type='table' AND name IN
    ('threads', 'comments', 'preferences')], then [fetchone()]. *)
Definition select_core_table (d : database) : option string :=
  head (filter (λ n, n ∈ core_tables) (tables d)).

(** [CREATE TRIGGER IF NOT EXISTS remove_stale_threads AFTER DELETE ON
    comments ...]: nothing to do when the trigger exists (a trigger
    lives and goes with its table, so [comments] is then there);
    otherwise the table it is put on must exist, and [None] is the
    error "no such table: main.comments". *)
Definition create_trigger (d : database) : option database :=
  if bool_decide ("remove_stale_threads" ∈ triggers d) then Some d
  else if bool_decide ("comments" ∈ tables d)
       then Some (with_triggers (triggers d ++ ["remove_stale_threads"]) d)
       else None.

(** *** The reply forest *)

(** [child cs p n]: the table has a row [n] whose parent is [p]. *)
Definition child (cs : list comment) (p n : Z) : Prop :=
  ∃ c, c ∈ cs ∧ id c = n ∧ parent c = Some p.

(** [n] is reachable from [r] along parent links, at any depth. *)
Definition descendant (cs : list comment) (r n : Z) : Prop :=
  tc (child cs) r n.

(** [r] is a root: a row whose parent is NULL. *)
Definition top_level (cs : list comment) (r : Z) : Prop :=
  ∃ c, c ∈ cs ∧ id c = r ∧ parent c = None.

(** An engine that never refuses. *)
Definition reliable (F : faults) : Prop :=
  ∀ c, begin_raises F c = false ∧ commit_raises F c = false ∧
       rollback_raises F c = false.

End Engine.

(** ** Computations of the adapter *)

Module Run.
Import Engine.

(** What [logger.info] receives. *)
Inductive record : Type :=
  | MigrateFromTo (v to : Z)      (* "migrate database from version %i to %i" *)
  | RowsChanged (n : nat).        (* "%i rows changed" *)

(** The calling thread's connection and the log. *)
Record world : Type := World {
  con : connection;
  logged : list record
}.

Definition with_con (c : connection) (w : world) : world :=
  World c (logged w).

(** A computation returns or raises in a new world; [None] is a loop that
    did not finish within the fuel it was given. *)
Definition M (A : Type) : Type := world → option (world * result A).

Definition ret {A} (a : A) : M A := λ w, Some (w, Val a).

Definition raise {A} (e : exn) : M A := λ w, Some (w, Exc e).

Definition bind {A B} (m : M A) (k : A → M B) : M B := λ w,
  match m w with
  | None => None
  | Some (w1, Exc e) => Some (w1, Exc e)
  | Some (w1, Val a) => k a w1
  end.

Definition diverge {A} : M A := λ _, None.

Declare Scope run_scope.
Delimit Scope run_scope with run.
Notation "'let*' x := m 'in' k" := (bind m (λ x, k))
  (at level 10, x name, m at level 100, k at level 200,
   format "'[v' 'let*'  x  :=  m  'in' '/' k ']'") : run_scope.
Notation "m >> k" := (bind m (λ _, k))
  (at level 100, k at level 200, right associativity) : run_scope.
Open Scope run_scope.

(** [con.execute] of a statement that only reads. *)
Definition query {A} (q : database → A) : M A := λ w,
  Some (w, Val (q (view (con w)))).

(** [con.execute] of a statement that writes: [rows] counts the rows it
    changes. *)
Definition execute (f : database → database) (rows : database → nat)
    : M unit := λ w,
  let c := con w in
  Some (with_con (store (f (view c)) (rows (view c)) c) w, Val tt).

(** [con.execute] of a statement the engine may refuse: [f] gives [None]
    when the statement names a table the catalog does not have, and the
    call raises OperationalError. *)
Definition attempt (f : database → option database)
    (rows : database → nat) : M unit := λ w,
  let c := con w in
  match f (view c) with
  | Some d => Some (with_con (store d (rows (view c)) c) w, Val tt)
  | None => Some (w, Exc OperationalError)
  end.

(** [con.total_changes] *)
Definition changes : M nat := λ w, Some (w, Val (total_changes (con w))).

(** [logger.info] *)
Definition info (r : record) : M unit := λ w,
  Some (World (con w) (logged w ++ [r]), Val tt).

(** [for x in l: f x] *)
Fixpoint for_each {A} (l : list A) (f : A → M unit) : M unit :=
  match l with
  | [] => ret tt
  | x :: l' => f x >> for_each l' f
  end.

End Run.

(** ** The context manager [Transaction] *)

Module Txn.
Import Engine Run.

Section WithFaults.
Variable F : faults.

(** [__enter__]; the value is [self._orig]. *)
Definition enter : M (option string) := λ w,
  let orig := isolation_level (con w) in
  let c := with_isolation (Some "IMMEDIATE") (con w) in
  match begin_immediate F c with
  | (c', Val _) => Some (with_con c' w, Val orig)
  | (c', Exc e) => Some (with_con c' w, Exc e)
  end.

(** [__exit__(exc_type, ...)]: the [finally] clause, the assignment
    [self.con.isolation_level = self._orig], runs whether or not the
    [try] raised.  What the [try] raised is raised again after it,
    unless the assignment itself raises. *)
Definition exit (orig : option string) (exc_type : bool) : M unit := λ w,
  let '(c, r) :=
    if exc_type then rollback F (con w) else commit F (con w) in
  let '(c', r') := set_isolation_level F orig c in
  Some (with_con c' w, match r' with Exc e => Exc e | Val _ => r end).

(** [with Transaction(con) as con: body].  When [__enter__] raises the
    block is not entered and [__exit__] is not called.  [__exit__]
    returns [None], so an exception of the block goes on propagating;
    an exception of [__exit__] itself takes its place. *)
Definition transaction {A} (body : M A) : M A := λ w,
  match enter w with
  | None => None
  | Some (w1, Exc e) => Some (w1, Exc e)
  | Some (w1, Val orig) =>
      match body w1 with
      | None => None
      | Some (w2, r) =>
          match exit orig (raised r) w2 with
          | None => None
          | Some (w3, Exc e) => Some (w3, Exc e)
          | Some (w3, Val _) => Some (w3, r)
          end
      end
  end.

End WithFaults.

(** A block that only issues statements on the connection it was handed:
    run inside a transaction, it leaves the transaction open, and touches
    neither the isolation level nor what is committed. *)
Definition statements_only {A} (body : M A) : Prop :=
  ∀ w w' r, is_Some (pending (con w)) → body w = Some (w', r) →
    is_Some (pending (con w')) ∧
    isolation_level (con w') = isolation_level (con w) ∧
    committed (con w') = committed (con w).

End Txn.

(** ** [class Adapter] *)

Module Adapter.
Import Engine Run Txn.

Definition MAX_VERSION : Z := 3.

(** [self.conf]: options by (section, option). *)
Definition config := gmap (string * string) string.

Definition has_option (conf : config) (s o : string) : bool :=
  bool_decide (is_Some (conf !! (s, o))).

(** [conf.get] raises when the option is not defined. *)
Definition get (conf : config) (s o : string) : M string :=
  match conf !! (s, o) with
  | Some v => ret v
  | None => raise NoOptionError
  end.

(** [ids.pop()] on a non-empty list: the last element, and what is left. *)
Definition pop (ids : list Z) : option (Z * list Z) :=
  match last ids with
  | Some x => Some (x, removelast ids)
  | None => None
  end.

(** [flattened[id].update(set(rv))] on a [defaultdict(set)] *)
Definition update (root : Z) (rv : list Z) (flattened : gmap Z (gset Z))
    : gmap Z (gset Z) :=
  <[root := default ∅ (flattened !! root) ∪ list_to_set rv]> flattened.

(** [while ids: ...] for the root [root]; one unit of fuel per turn. *)
Fixpoint descend (fuel : nat) (root : Z) (ids : list Z)
    (flattened : gmap Z (gset Z)) : M (gmap Z (gset Z)) :=
  match pop ids with
  | None => ret flattened
  | Some (x, ids') =>
      match fuel with
      | O => diverge
      | S fuel' =>
          let* rv := query (select_children x) in
          descend fuel' root (ids' ++ rv) (update root rv flattened)
      end
  end.

(** [for id in top: ids = [id, ]; while ids: ...] *)
Fixpoint collect (fuel : nat) (top : list Z) (flattened : gmap Z (gset Z))
    : M (gmap Z (gset Z)) :=
  match top with
  | [] => ret flattened
  | root :: top' =>
      let* flattened' := descend fuel root [root] flattened in
      collect fuel top' flattened'
  end.

(** [for id in flattened.keys(): for n in flattened[id]: UPDATE ...] *)
Definition rewrite_parents (flattened : gmap Z (gset Z)) : M unit :=
  for_each (map_to_list flattened).*1 (λ root,
    for_each (elements (default ∅ (flattened !! root))) (λ n,
      execute (update_parent root n) (update_parent_rows n))).

(** The state of one [while] loop.  [seen] are the comments popped so
    far: stack and popped comments are pairwise distinct rows of the
    table, and each but the root was pushed as a child of a popped
    comment. *)
Definition walk_inv (cs : list comment) (root : Z) (ids seen : list Z)
    : Prop :=
  NoDup (ids ++ seen) ∧
  ∀ y, y ∈ ids ++ seen →
    y ∈ id <$> cs ∧ (y = root ∨ ∃ p, p ∈ seen ∧ child cs p y).

(** The UPDATE statements [rewrite_parents] issues, in order, as pairs
    (new parent, id). *)
Definition issued (flattened : gmap Z (gset Z)) : list (Z * Z) :=
  root ← (map_to_list flattened).*1;
  (root,.) <$> elements (default ∅ (flattened !! root)).

(** What a sequence of such statements makes of one row. *)
Definition reparent (us : list (Z * Z)) (c : comment) : comment :=
  foldl (λ c u, if bool_decide (id c = u.2) then set_parent u.1 c else c)
        c us.

Definition set_user_version (v : Z) : M unit :=
  execute (with_version v) (λ _, O).

(** What the second block makes of the database [d]. *)
Definition moved (conf : config) (d : database) : database :=
  with_version 2
    match conf !! ("general", "session-key") with
    | Some v => set_preference v "session-key" d
    | None => d
    end.

(** The two lines every migration block ends with: the version bump and
    the log entry. *)
Definition closing (k : Z) : M unit :=
  set_user_version k >> let* n := changes in info (RowsChanged n).

Section WithEnvironment.
Variable F : faults.
(** [self.conf] *)
Variable conf : config.
(** [buffer(Bloomfilter(iterable=["127.0.0.0"]).array)], computed in
    [isso.utils] *)
Variable bf : list Z.
(** The constructors [Preferences(self)], [Threads(self)],
    [Comments(self)] and [Guard(self)], in this order. *)
Variable collaborators : M unit.

(** The property [version]. *)
Definition version : M Z := query user_version.

(** The body of the [with] under [if self.version == 0]. *)
Definition body_0 : M unit :=
  execute (update_voters bf) (λ d, length (comments d)) >>
  set_user_version 1 >>
  let* n := changes in
  info (RowsChanged n).

(** The body of the [with] under [if self.version == 1]. *)
Definition body_1 : M unit :=
  (if has_option conf "general" "session-key"
   then let* v := get conf "general" "session-key" in
        attempt (update_preference v "session-key")
                (update_preference_rows "session-key")
   else ret tt) >>
  set_user_version 2 >>
  let* n := changes in
  info (RowsChanged n).

(** The body of the [with] under [if self.version == 2]. *)
Definition body_2 (fuel : nat) : M unit :=
  let* top := query select_top in
  let* flattened := collect fuel top ∅ in
  rewrite_parents flattened >>
  set_user_version 3 >>
  let* n := changes in
  info (RowsChanged n).

Definition step_0 : M unit := transaction F body_0.
Definition step_1 : M unit := transaction F body_1.
Definition step_2 (fuel : nat) : M unit := transaction F (body_2 fuel).

(** [if b: m] *)
Definition when (b : bool) (m : M unit) : M unit :=
  if b then m else ret tt.

(** [migrate(to)] *)
Definition migrate (fuel : nat) (to : Z) : M unit :=
  let* v := version in
  if bool_decide (v >= to) then ret tt else
  let* v := version in
  info (MigrateFromTo v to) >>
  let* v := version in
  when (bool_decide (v = 0)) step_0 >>
  let* v := version in
  when (bool_decide (v = 1)) step_1 >>
  let* v := version in
  when (bool_decide (v = 2)) (step_2 fuel).

(** [migrate] past its guard and its log line: the three blocks in a
    row. *)
Definition steps (fuel : nat) : M unit :=
  let* v := version in
  when (bool_decide (v = 0)) step_0 >>
  let* v := version in
  when (bool_decide (v = 1)) step_1 >>
  let* v := version in
  when (bool_decide (v = 2)) (step_2 fuel).

(** [__init__] *)
Definition init (fuel : nat) : M unit :=
  let* rv := query select_core_table in
  collaborators >>
  match rv with
  | None => set_user_version MAX_VERSION
  | Some _ => migrate fuel MAX_VERSION
  end >>
  attempt create_trigger (λ _, O).

End WithEnvironment.

End Adapter.

(** ** Sample data *)

Module Sample.
Import Engine Run Txn Adapter.

Definition row (n : Z) (p : option Z) : comment := Comment n p [] [].

(** The forest [1 → 2 → 3 → 4], [1 → 5], and the lone root [6]. *)
Definition forest : list comment :=
  [row 1 None; row 2 (Some 1); row 3 (Some 2); row 4 (Some 3);
   row 5 (Some 1); row 6 None].

Definition db (v : Z) : database :=
  Database v ["comments"; "preferences"; "threads"] [] forest [].

(** A connection in manual mode with nothing pending. *)
Definition start (d : database) : world :=
  World (Connection None d None 0) [].

(** A block that writes and then fails. *)
Definition failing_block : M unit :=
  execute (update_voters [1]) (λ d, length (comments d)) >>
  set_user_version 9 >>
  raise (Failure "stop").

Definition session_conf : config :=
  {[ ("general", "session-key") := "secret" ]}.

(** Collaborators that create the three tables, empty, when they are
    missing. *)
Definition create_tables : M unit :=
  execute (λ d, Database (user_version d)
                  (tables d ++
                   filter (λ n, n ∉ tables d)
                     ["preferences"; "threads"; "comments"])
                  (triggers d) (comments d) (preferences d))
          (λ _, O).

(** An engine that refuses every rollback. *)
Definition no_rollback : faults :=
  Faults (λ _, false) (λ _, false) (λ _, true).

(** An engine that refuses a commit while the connection is in the
    mode of a [with] block, and accepts it afterwards. *)
Definition commit_refused_once : faults :=
  Faults (λ _, false)
         (λ c, bool_decide (isolation_level c = Some "IMMEDIATE"))
         (λ _, false).

End Sample.


(** ** Further vocabulary *)

Module Threads.
Import Pool.

(** The thread that makes a call. *)
Definition caller (c : call) : thread :=
  match c with
  | Connect t | Close t | Execute t _ _ => t
  end.

End Threads.

Module Forest.
Import Engine.

(** The shape of the forest: each row's id with its parent. *)
Definition links (cs : list comment) : list (Z * option Z) :=
  (λ c, (id c, parent c)) <$> cs.

(** What a migration that found version [v] keeps of the database [d]:
    ids, other columns and the catalog always, the voters from version 1
    on, the preferences from version 2 on. *)
Definition kept (v : Z) (d d' : database) : Prop :=
  id <$> comments d' = id <$> comments d ∧
  columns <$> comments d' = columns <$> comments d ∧
  tables d' = tables d ∧
  triggers d' = triggers d ∧
  (1 ≤ v → voters <$> comments d' = voters <$> comments d) ∧
  (2 ≤ v → preferences d' = preferences d).

(** A forest of depth at most one: every comment is a root or the direct
    child of a root. *)
Definition flat (cs : list comment) : Prop :=
  ∀ c, c ∈ cs → parent c = None ∨ ∃ r, parent c = Some r ∧ top_level cs r.

(** A forest proper: every comment is a root or hangs, at some depth,
    under a root. *)
Definition rooted (cs : list comment) : Prop :=
  ∀ c, c ∈ cs →
    parent c = None ∨ ∃ r, top_level cs r ∧ descendant cs r (id c).

(** A root followed by its three replies. *)
Definition flat_sample : list comment :=
  [Comment 1 None [] []; Comment 2 (Some 1) [] [];
   Comment 3 (Some 1) [] []; Comment 4 (Some 1) [] []].

(** A thread three levels deep: [1 → 2 → 3]. *)
Definition chain_sample : list comment :=
  [Comment 1 None [] []; Comment 2 (Some 1) [] [];
   Comment 3 (Some 2) [] []].

(** A version 2 database over the rows [cs], behind a connection in
    manual mode. *)
Definition at_version_2 (cs : list comment) : Run.world :=
  Run.World (Connection None (Database 2 ["comments"] [] cs []) None 0) [].

End Forest.


(** * Properties *)

(** ** The pool *)

Section PoolFacts.
Import Pool.

Lemma pool_inv_empty : pool_inv empty.
Proof.
  split; intros ?; intros; simpl in *; by rewrite lookup_empty in *.
Qed.

Lemma held_in_heap p t h :
  slots_open p → slots p !! t = Some (Some h) → (h < length (heap p))%nat.
Proof.
  intros Hop Ht. destruct (Hop _ _ Ht) as (hd & Hhd & _).
  by eapply lookup_lt_Some.
Qed.

Lemma pool_inv_connect t p : pool_inv p → pool_inv (connect t p).
Proof.
  intros [Hop Hinj]. split.
  - intros t' h. simpl. rewrite lookup_insert.
    case_decide as Ht; simplify_eq.
    + intros [= <-]. exists (Handle true []). split; [|done].
      rewrite lookup_app_r; [|lia]. by rewrite Nat.sub_diag.
    + intros Hs. destruct (Hop _ _ Hs) as (hd & Hhd & Ho).
      exists hd. split; [|done]. by apply lookup_app_l_Some.
  - intros t1 t2 h. simpl. rewrite !lookup_insert.
    repeat case_decide; simplify_eq; try done.
    + intros [= <-] Hs. apply held_in_heap in Hs; [lia|done].
    + intros Hs [= <-]. apply held_in_heap in Hs; [lia|done].
    + apply Hinj.
Qed.

Lemma pool_inv_close t p : pool_inv p → pool_inv (close t p).1.
Proof.
  intros [Hop Hinj]. unfold close.
  destruct (slots p !! t) as [[h|]|] eqn:Ht; simpl; try done.
  split.
  - intros t' h'. simpl. rewrite lookup_insert.
    case_decide as Hne; [done|]. intros Hs.
    destruct (Hop _ _ Hs) as (hd & Hhd & Ho).
    exists hd. split; [|done].
    unfold close_handle. destruct (heap p !! h) as [hd0|]; [|done].
    rewrite list_lookup_insert_ne; [done|].
    intros ->. apply Hne. by eapply Hinj.
  - intros t1 t2 h'. simpl. rewrite !lookup_insert.
    repeat case_decide; try done. apply Hinj.
Qed.

Lemma connection_spec t p :
  pool_inv p →
  ∃ h hd, connection t p = ((connection t p).1, Some h) ∧
    pool_inv (connection t p).1 ∧
    slots (connection t p).1 !! t = Some (Some h) ∧
    heap (connection t p).1 !! h = Some hd ∧ is_open hd = true ∧
    (slots p !! t = Some (Some h) ∧ (connection t p).1 = p ∨
     (slots p !! t = None ∨ slots p !! t = Some None) ∧
     h = length (heap p) ∧ (connection t p).1 = connect t p).
Proof.
  intros Hinv. unfold connection.
  destruct (slots p !! t) as [[h|]|] eqn:Ht; simpl.
  - destruct (proj1 Hinv _ _ Ht) as (hd & Hhd & Ho).
    exists h, hd. eauto 10.
  - exists (length (heap p)), (Handle true []).
    rewrite lookup_insert_eq. simpl.
    rewrite lookup_app_r, Nat.sub_diag; [|lia].
    split_and!; eauto using pool_inv_connect.
  - exists (length (heap p)), (Handle true []).
    rewrite lookup_insert_eq. simpl.
    rewrite lookup_app_r, Nat.sub_diag; [|lia].
    split_and!; eauto using pool_inv_connect.
Qed.

Lemma execute_spec t sql args p :
  pool_inv p →
  ∃ h hd, (execute t sql args p).2 = Val h ∧
    pool_inv (execute t sql args p).1 ∧
    slots (execute t sql args p).1 !! t = Some (Some h) ∧
    heap (execute t sql args p).1 !! h = Some hd ∧ is_open hd = true ∧
    last (sent hd) = Some (sql_text sql, args) ∧
    (slots p !! t = Some (Some h) ∨
     (slots p !! t = None ∨ slots p !! t = Some None) ∧
     h = length (heap p)).
Proof.
  intros Hinv.
  destruct (connection_spec t p Hinv)
    as (h & hd & Hc & Hinv' & Hs & Hh & Ho & Hcase).
  unfold execute. rewrite Hc. unfold handle_execute. rewrite Hh, Ho. simpl.
  exists h, (Handle true (sent hd ++ [(sql_text sql, args)])).
  assert (Hlt : (h < length (heap (connection t p).1))%nat)
    by by eapply lookup_lt_Some.
  split_and!; try done.
  - destruct Hinv' as [Hop Hinj]. split; [|exact Hinj].
    intros t' h'. simpl. intros Hs'.
    destruct (Hop _ _ Hs') as (hd' & Hhd' & Ho').
    destruct (decide (h' = h)) as [->|Hne].
    + eexists. by rewrite list_lookup_insert_eq.
    + exists hd'. by rewrite list_lookup_insert_ne.
  - by rewrite list_lookup_insert_eq.
  - simpl. by rewrite last_snoc.
  - destruct Hcase as [[? _]|(? & ? & _)]; eauto.
Qed.

Lemma pool_inv_step c p : pool_inv p → pool_inv (step c p).
Proof.
  intros Hinv. destruct c as [t|t|t sql args]; simpl.
  - by apply pool_inv_connect.
  - by apply pool_inv_close.
  - by destruct (execute_spec t sql args p Hinv) as (? & ? & ? & ? & _).
Qed.

Lemma pool_inv_run cs p : pool_inv p → pool_inv (run cs p).
Proof.
  revert p. induction cs as [|c cs IH]; intros p Hinv; simpl; [done|].
  apply IH. by apply pool_inv_step.
Qed.

Lemma close_clears t p :
  slots (close t p).1 !! t = None ∨ slots (close t p).1 !! t = Some None.
Proof.
  unfold close. destruct (slots p !! t) as [[h|]|] eqn:Ht; simpl; eauto.
  right. by rewrite lookup_insert_eq.
Qed.

Lemma close_spec t p h :
  slots p !! t = Some (Some h) →
  (close t p).2 = Val tt ∧ slots (close t p).1 !! t = Some None.
Proof.
  intros Ht. unfold close. rewrite Ht. simpl.
  by rewrite lookup_insert_eq.
Qed.

(** C8, as the code has it: [close] needs a connection in the calling
    thread's slot.  When the slot was never assigned, or holds [None]
    after an earlier [close], the call raises [AttributeError] and the
    pool is left as it was. *)
Theorem close_requires_connection (t : thread) (p : pool) :
  slots p !! t = None ∨ slots p !! t = Some None →
  close t p = (p, Exc AttributeError).
Proof.
  unfold close. by intros [-> | ->].
Qed.

Lemma close_requires_connection_witness :
  (slots empty !! 0%nat = None ∨ slots empty !! 0%nat = Some None) ∧
  close 0%nat empty = (empty, Exc AttributeError).
Proof.
  assert (H : slots empty !! 0%nat = None ∨ slots empty !! 0%nat = Some None)
    by (left; reflexivity).
  split; [exact H | exact (close_requires_connection 0%nat empty H)].
Defined.

(** C8 as stated fails: a thread that never connected, and a thread that
    has already closed its connection, both get an error from [close]. *)
Lemma close_without_connection_raises :
  slots empty !! 0%nat = None ∧
  (close 0%nat empty).2 ≠ Val tt ∧
  slots (close 0%nat (connect 0%nat empty)).1 !! 0%nat = Some None ∧
  (close 0%nat (close 0%nat (connect 0%nat empty)).1).2 ≠ Val tt.
Proof.
  split_and!; try done; vm_compute; congruence.
Qed.

(** C9: a list of fragments is executed as the single statement obtained
    by joining the fragments with one space, and a plain statement is
    sent as it is.  On every pool that calls can produce, the statement
    recorded last on the connection that ran it is that text, with the
    arguments given. *)
Theorem execute_joins_fragments (cs : list call) (p : pool) (t : thread)
    (fs : list string) (s : string) (args : list value) :
  execute t (Fragments fs) args p
    = execute t (Statement (String.concat " " fs)) args p ∧
  sql_text (Statement s) = s ∧
  (∃ h hd, (execute t (Fragments fs) args (run cs empty)).2 = Val h ∧
     heap (execute t (Fragments fs) args (run cs empty)).1 !! h = Some hd ∧
     last (sent hd) = Some (String.concat " " fs, args)) ∧
  (∃ h hd, (execute t (Statement s) args (run cs empty)).2 = Val h ∧
     heap (execute t (Statement s) args (run cs empty)).1 !! h = Some hd ∧
     last (sent hd) = Some (s, args)).
Proof.
  split_and!; try reflexivity.
  - destruct (execute_spec t (Fragments fs) args (run cs empty))
      as (h & hd & ? & _ & _ & ? & _ & ? & _);
      [apply pool_inv_run, pool_inv_empty|]. by exists h, hd.
  - destruct (execute_spec t (Statement s) args (run cs empty))
      as (h & hd & ? & _ & _ & ? & _ & ? & _);
      [apply pool_inv_run, pool_inv_empty|]. by exists h, hd.
Qed.

(** C10: on every pool that calls can produce, [execute] runs its
    statement on an open connection held in the calling thread's slot.
    After [close] the slot holds no connection, and an [execute] issued
    right then runs on a connection that did not exist before. *)
Theorem execute_on_open_connection (cs : list call) (t : thread)
    (sql : sql_arg) (args : list value) :
  let p := run cs empty in
  let q := (close t p).1 in
  (∃ h hd, (execute t sql args p).2 = Val h ∧
     slots (execute t sql args p).1 !! t = Some (Some h) ∧
     heap (execute t sql args p).1 !! h = Some hd ∧ is_open hd = true ∧
     last (sent hd) = Some (sql_text sql, args) ∧
     (slots p !! t = Some (Some h) ∨
      (slots p !! t = None ∨ slots p !! t = Some None) ∧
      h = length (heap p))) ∧
  (slots q !! t = None ∨ slots q !! t = Some None) ∧
  (∃ hd, (execute t sql args q).2 = Val (length (heap q)) ∧
     heap q !! length (heap q) = None ∧
     heap (execute t sql args q).1 !! length (heap q) = Some hd ∧
     is_open hd = true ∧ sent hd = [(sql_text sql, args)]).
Proof.
  intros p q.
  assert (Hp : pool_inv p) by apply pool_inv_run, pool_inv_empty.
  assert (Hq : pool_inv q) by by apply pool_inv_close.
  split_and!.
  - destruct (execute_spec t sql args p Hp)
      as (h & hd & ? & _ & ? & ? & ? & ? & ?). by exists h, hd.
  - apply close_clears.
  - assert (Hs := close_clears t p). fold q in Hs.
    exists (Handle true [(sql_text sql, args)]).
    unfold execute, connection, handle_execute.
    assert (Hnew : (heap q ++ [Handle true []]) !! length (heap q)
                   = Some (Handle true [])).
    { rewrite lookup_app_r, Nat.sub_diag; [done|lia]. }
    assert (Hlen : (length (heap q) < length (heap q ++ [Handle true []]))%nat).
    { rewrite length_app. simpl. lia. }
    destruct Hs as [-> | ->]; simpl; rewrite lookup_insert_eq; simpl;
      unfold handle_id in *; rewrite Hnew; simpl; (split_and!; try done;
        [by apply lookup_ge_None | by rewrite list_lookup_insert_eq]).
Qed.

End PoolFacts.


(** ** Transactions *)

Section TxnFacts.
Import Engine Run Txn.

Lemma enter_inv F w w1 orig :
  enter F w = Some (w1, Val orig) →
  pending (con w) = None ∧ orig = isolation_level (con w) ∧
  w1 = World (Connection (Some "IMMEDIATE") (committed (con w))
                (Some (committed (con w))) (total_changes (con w)))
             (logged w).
Proof.
  unfold enter, begin_immediate. simpl.
  destruct (pending (con w)) eqn:Hp; [done|].
  destruct (begin_raises F _); [done|].
  by intros [= <- <-].
Qed.

Lemma enter_exc F w w1 e :
  enter F w = Some (w1, Exc e) →
  e = OperationalError ∧ committed (con w1) = committed (con w) ∧
  pending (con w1) = pending (con w) ∧ logged w1 = logged w.
Proof.
  unfold enter, begin_immediate. simpl.
  destruct (pending (con w)) eqn:Hp.
  - intros [= <- <-]. simpl. by rewrite Hp.
  - destruct (begin_raises F _); [|done].
    intros [= <- <-]. simpl. by rewrite Hp.
Qed.

Lemma enter_total F w : ∃ w1 r, enter F w = Some (w1, r).
Proof.
  unfold enter. destruct (begin_immediate F _) as [c [u|e]]; eauto.
Qed.

Lemma exit_isolation F orig b w w' r :
  exit F orig b w = Some (w', r) →
  isolation_level (con w') = orig ∧ logged w' = logged w.
Proof.
  unfold exit, set_isolation_level.
  destruct (if b then rollback F (con w) else commit F (con w)) as [c r'].
  destruct orig as [l|]; [by intros [= <- <-]|].
  unfold commit. simpl.
  destruct (pending c); [destruct (commit_raises F _)|];
    by intros [= <- <-].
Qed.

Lemma exit_total F orig b w : ∃ w' r, exit F orig b w = Some (w', r).
Proof.
  unfold exit.
  destruct (if b then rollback F (con w) else commit F (con w)) as [c r'].
  destruct (set_isolation_level F orig c); eauto.
Qed.

(** [__exit__] on a connection with a transaction open.  When commit or
    rollback goes through, the restoring assignment finds nothing to
    commit.  When it is refused, the call raises, and the assignment
    decides what becomes of the transaction: with [None] to restore it
    issues COMMIT, which publishes the working copy unless it is refused
    too; otherwise the transaction stays open. *)
Lemma exit_open F orig b w w' r d2 :
  pending (con w) = Some d2 →
  exit F orig b w = Some (w', r) →
  total_changes (con w') = total_changes (con w) ∧
  ((if b then rollback_raises F (con w) else commit_raises F (con w))
     = false →
     r = Val tt ∧ pending (con w') = None ∧
     committed (con w') = if b then committed (con w) else d2) ∧
  ((if b then rollback_raises F (con w) else commit_raises F (con w))
     = true →
     r = Exc OperationalError ∧
     ((orig = None ∧
       commit_raises F (with_isolation None (con w)) = false ∧
       committed (con w') = d2 ∧ pending (con w') = None) ∨
      ((is_Some orig ∨
        commit_raises F (with_isolation None (con w)) = true) ∧
       committed (con w') = committed (con w) ∧
       pending (con w') = Some d2))).
Proof.
  intros Hp. unfold exit, set_isolation_level, rollback, commit.
  rewrite Hp.
  destruct b.
  - destruct (rollback_raises F (con w)) eqn:Hf.
    + destruct orig as [l|]; simpl.
      * intros [= <- <-]. simpl. split_and!; try done. intros _.
        split; [done|]. right. split_and!; eauto.
      * rewrite Hp.
        destruct (commit_raises F (with_isolation None (con w))) eqn:Hf2;
          intros [= <- <-]; simpl; split_and!; try done; intros _;
          (split; [done|]); [right|left]; split_and!; eauto.
    + destruct orig as [l|]; simpl; intros [= <- <-]; simpl;
        split_and!; done.
  - destruct (commit_raises F (con w)) eqn:Hf.
    + destruct orig as [l|]; simpl.
      * intros [= <- <-]. simpl. split_and!; try done. intros _.
        split; [done|]. right. split_and!; eauto.
      * rewrite Hp.
        destruct (commit_raises F (with_isolation None (con w))) eqn:Hf2;
          intros [= <- <-]; simpl; split_and!; try done; intros _;
          (split; [done|]); [right|left]; split_and!; eauto.
    + destruct orig as [l|]; simpl; intros [= <- <-]; simpl;
        split_and!; done.
Qed.

(** The outcomes of a [with] block, read off [transaction]. *)
Lemma transaction_inv {A} F (body : M A) w w3 r3 :
  transaction F body w = Some (w3, r3) →
  (∃ e, enter F w = Some (w3, Exc e) ∧ r3 = Exc e) ∨
  (∃ w1 w2 r r', enter F w = Some (w1, Val (isolation_level (con w))) ∧
     body w1 = Some (w2, r) ∧
     exit F (isolation_level (con w)) (raised r) w2 = Some (w3, r') ∧
     r3 = match r' with Exc e => Exc e | Val _ => r end).
Proof.
  unfold transaction.
  destruct (enter F w) as [[w1 [orig|e]]|] eqn:He; [|naive_solver..].
  destruct (enter_inv _ _ _ _ He) as (_ & -> & _).
  destruct (body w1) as [[w2 r]|] eqn:Hb; [|done].
  destruct (exit F _ (raised r) w2) as [[w3' [u|e]]|] eqn:Hx; [| |done].
  - intros [= <- <-]. right. exists w1, w2, r, (Val u). by rewrite Hx.
  - intros [= <- <-]. right. exists w1, w2, r, (Exc e). by rewrite Hx.
Qed.

(** *** Blocks built from statements *)

Lemma statements_only_ret {A} (a : A) : statements_only (ret a).
Proof. intros w w' r Hp [= <- <-]. done. Qed.

Lemma statements_only_raise {A} e : statements_only (@raise A e).
Proof. intros w w' r Hp [= <- <-]. done. Qed.

Lemma statements_only_diverge {A} : statements_only (@diverge A).
Proof. intros w w' r Hp [=]. Qed.

Lemma statements_only_query {A} (q : database → A) :
  statements_only (query q).
Proof. intros w w' r Hp [= <- <-]. done. Qed.

Lemma statements_only_changes : statements_only changes.
Proof. intros w w' r Hp [= <- <-]. done. Qed.

Lemma statements_only_info x : statements_only (info x).
Proof. intros w w' r Hp [= <- <-]. done. Qed.

Lemma statements_only_execute f rows : statements_only (execute f rows).
Proof.
  intros w w' r [d Hp] [= <- <-]. unfold store. rewrite Hp. simpl. eauto.
Qed.

Lemma statements_only_bind {A B} (m : M A) (k : A → M B) :
  statements_only m → (∀ a, statements_only (k a)) →
  statements_only (bind m k).
Proof.
  intros Hm Hk w w' r Hp. unfold bind.
  destruct (m w) as [[w1 [a|e]]|] eqn:Hmw; [| |done].
  - destruct (Hm _ _ _ Hp Hmw) as (Hp1 & Hi1 & Hc1). intros Hka.
    destruct (Hk a _ _ _ Hp1 Hka) as (? & ? & ?).
    split_and!; [done|congruence..].
  - intros [= <- <-]. by eapply Hm.
Qed.

Lemma statements_only_for_each {A} (l : list A) (f : A → M unit) :
  (∀ a, statements_only (f a)) → statements_only (for_each l f).
Proof.
  intros Hf. induction l as [|a l IH]; simpl.
  - apply statements_only_ret.
  - apply statements_only_bind; [apply Hf | intros _; apply IH].
Qed.

Lemma statements_only_failing_block :
  statements_only Sample.failing_block.
Proof.
  unfold Sample.failing_block, Adapter.set_user_version.
  repeat first
    [ apply statements_only_bind; [|intros ?]
    | apply statements_only_execute
    | apply statements_only_raise ].
Qed.

Lemma statements_only_attempt f rows : statements_only (attempt f rows).
Proof.
  intros w w' r [d Hp]. unfold attempt.
  destruct (f (view (con w))); intros [= <- <-]; [|by eauto].
  unfold store. rewrite Hp. simpl. eauto.
Qed.

(** C2, as the code has it: a [with] block that was entered and has
    finished.  Whatever happens, also when commit or rollback raise, the
    isolation level is afterwards what it was before entry, and the file
    holds either what it held before or the block's whole working copy.
    If the block raised, an exception propagates, and once the rollback
    has gone through the file, schema version and rows, and what the
    connection sees are as before the block.  If the block returned and
    the commit goes through, its writes are committed; a refused commit
    makes the statement raise. *)
Theorem transaction_exit_paths {A} (F : faults) (body : M A)
    (w w1 w2 : world) (orig : option string) (r : result A) :
  statements_only body →
  enter F w = Some (w1, Val orig) →
  body w1 = Some (w2, r) →
  ∃ w3 r3, transaction F body w = Some (w3, r3) ∧
    isolation_level (con w3) = isolation_level (con w) ∧
    (committed (con w3) = committed (con w) ∨
     committed (con w3) = view (con w2) ∧ pending (con w3) = None) ∧
    (raised r = true →
       raised r3 = true ∧
       (rollback_raises F (con w2) = false →
          r3 = r ∧ pending (con w3) = None ∧
          committed (con w3) = committed (con w) ∧
          view (con w3) = view (con w))) ∧
    (raised r = false →
       (commit_raises F (con w2) = false →
          r3 = r ∧ pending (con w3) = None ∧
          committed (con w3) = view (con w2)) ∧
       (commit_raises F (con w2) = true →
          r3 = Exc OperationalError)).
Proof.
  intros Hbody He Hb.
  destruct (enter_inv _ _ _ _ He) as (Hp & -> & Hw1).
  assert (Hin : is_Some (pending (con w1))) by (subst w1; simpl; eauto).
  destruct (Hbody _ _ _ Hin Hb) as ([d2 Hp2] & Hi2 & Hc2).
  assert (Hc1 : committed (con w1) = committed (con w)) by by subst w1.
  assert (Hv2 : view (con w2) = d2) by (unfold view; by rewrite Hp2).
  destruct (exit_total F (isolation_level (con w)) (raised r) w2)
    as (w3 & r' & Hx).
  exists w3, (match r' with Exc e => Exc e | Val _ => r end).
  destruct (exit_isolation _ _ _ _ _ _ Hx) as [Hi3 _].
  destruct (exit_open _ _ _ _ _ _ _ Hp2 Hx) as (_ & Hok & Hko).
  split_and!.
  - unfold transaction. rewrite He, Hb, Hx. by destruct r'.
  - done.
  - destruct (if raised r then rollback_raises F (con w2)
              else commit_raises F (con w2)) eqn:Hf.
    + destruct (Hko eq_refl) as (_ & [(_ & _ & ? & ?)|(_ & ? & _)]).
      * right. split; congruence.
      * left. congruence.
    + destruct (Hok eq_refl) as (_ & ? & Hc3).
      destruct (raised r); [left|right; split]; congruence.
  - intros Hr. rewrite Hr in Hok, Hko. split.
    + destruct r'; [done|done].
    + intros Hf. destruct (Hok Hf) as (-> & Hp3 & Hc3).
      split_and!; [done|done|congruence|].
      unfold view. rewrite Hp3, Hp. simpl. congruence.
  - intros Hr. rewrite Hr in Hok, Hko. split.
    + intros Hf. destruct (Hok Hf) as (-> & ? & ?).
      split_and!; [done|done|congruence].
    + intros Hf. by destruct (Hko Hf) as (-> & _).
Qed.

Lemma transaction_exit_paths_witness :
  statements_only Sample.failing_block ∧
  ∃ w1 w2 w3 r3,
    enter no_faults (Sample.start (Sample.db 2)) = Some (w1, Val None) ∧
    Sample.failing_block w1 = Some (w2, Exc (Failure "stop")) ∧
    user_version (view (con w2)) = 9 ∧
    transaction no_faults Sample.failing_block (Sample.start (Sample.db 2))
      = Some (w3, r3) ∧
    isolation_level (con w3) = None ∧
    r3 = Exc (Failure "stop") ∧
    view (con w3) = Sample.db 2.
Proof.
  split; [exact statements_only_failing_block|].
  eexists _, _.
  destruct (transaction_exit_paths no_faults Sample.failing_block
              (Sample.start (Sample.db 2)) _ _ None (Exc (Failure "stop"))
              statements_only_failing_block eq_refl eq_refl)
    as (w3 & r3 & Ht & Hi & _ & Hexc & _).
  exists w3, r3.
  destruct (Hexc eq_refl) as (_ & Hrb).
  destruct (Hrb eq_refl) as (-> & _ & _ & Hv).
  split_and!; try reflexivity; assumption.
Defined.

(** C2 as stated fails when the engine refuses.  With a rollback that
    is refused, the exception propagates out of the block and the
    restoring assignment, which issues COMMIT, publishes the writes the
    block had made: the file then holds version 9 and the rewritten
    voters.  With a commit that is refused once, the statement raises
    although the same assignment has committed the block's write. *)
Lemma refused_rollback_commits :
  (∃ w3, transaction Sample.no_rollback Sample.failing_block
           (Sample.start (Sample.db 2)) = Some (w3, Exc OperationalError) ∧
         isolation_level (con w3) = None ∧
         pending (con w3) = None ∧
         user_version (committed (con w3)) = 9 ∧
         committed (con w3) ≠ Sample.db 2) ∧
  (∃ w3, transaction Sample.commit_refused_once
           (Adapter.set_user_version 9) (Sample.start (Sample.db 2))
         = Some (w3, Exc OperationalError) ∧
         pending (con w3) = None ∧
         user_version (committed (con w3)) = 9).
Proof.
  split; eexists; (split; [vm_compute; reflexivity|]); simpl;
    split_and!; done.
Qed.

End TxnFacts.


(** ** Migration: versions *)

Section MigrateFacts.
Import Engine Run Txn Adapter.

Implicit Types (w : world) (F : faults) (conf : config) (bf : list Z).

(** The version a statement on the connection reads. *)
Local Abbreviation ver w := (user_version (view (con w))).
(** The version the file holds. *)
Local Abbreviation stored w := (user_version (committed (con w))).

Lemma view_store d n c : view (store d n c) = d.
Proof. unfold view, store. by destruct (pending c). Qed.

Lemma bind_inv {A B} (m : M A) (k : A → M B) w w' r :
  bind m k w = Some (w', r) →
  (∃ e, m w = Some (w', Exc e) ∧ r = Exc e) ∨
  (∃ w1 a, m w = Some (w1, Val a) ∧ k a w1 = Some (w', r)).
Proof.
  unfold bind. destruct (m w) as [[w1 [a|e]]|]; [| |done].
  - intros Hk. right. eauto.
  - intros [= <- <-]. left. eauto.
Qed.

(** *** The loops of the third step only read *)

Lemma descend_reads fuel root ids fl w w' r :
  descend fuel root ids fl w = Some (w', r) →
  w' = w ∧ ∃ fl', r = Val fl'.
Proof.
  revert ids fl. induction fuel as [|fuel IH]; intros ids fl; simpl.
  - destruct (pop ids) as [[x ids']|]; [done|].
    intros [= <- <-]. eauto.
  - destruct (pop ids) as [[x ids']|].
    + unfold bind, query. apply IH.
    + intros [= <- <-]. eauto.
Qed.

Lemma collect_reads fuel top fl w w' r :
  collect fuel top fl w = Some (w', r) →
  w' = w ∧ ∃ fl', r = Val fl'.
Proof.
  revert fl. induction top as [|root top IH]; intros fl; simpl.
  - intros [= <- <-]. eauto.
  - intros [(e & Hd & _)|(w1 & fl1 & Hd & Hc)]%bind_inv.
    + by destruct (descend_reads _ _ _ _ _ _ _ Hd) as (_ & ? & ?).
    + destruct (descend_reads _ _ _ _ _ _ _ Hd) as (-> & _).
      by apply IH in Hc.
Qed.

Lemma for_each_returns {A} (l : list A) (f : A → M unit) w :
  (∀ a w, ∃ w', f a w = Some (w', Val tt)) →
  ∃ w', for_each l f w = Some (w', Val tt).
Proof.
  intros Hf. revert w. induction l as [|a l IH]; intros w; simpl.
  - by eexists.
  - unfold bind. destruct (Hf a w) as (w1 & ->). apply IH.
Qed.

Lemma rewrite_parents_returns fl w :
  ∃ w', rewrite_parents fl w = Some (w', Val tt).
Proof.
  apply for_each_returns. intros root w1.
  apply for_each_returns. intros n w2. by eexists.
Qed.

Lemma statements_only_rewrite_parents fl :
  statements_only (rewrite_parents fl).
Proof.
  apply statements_only_for_each. intros root.
  apply statements_only_for_each. intros n.
  apply statements_only_execute.
Qed.

Lemma statements_only_collect fuel top fl :
  statements_only (collect fuel top fl).
Proof.
  intros w w' r Hp Hc.
  by destruct (collect_reads _ _ _ _ _ _ Hc) as (-> & _).
Qed.

(** *** The tail every step ends with *)

Lemma closing_run k w :
  closing k w =
    Some (World (store (with_version k (view (con w))) 0 (con w))
            (logged w ++
               [RowsChanged
                  (total_changes (store (with_version k (view (con w))) 0
                                    (con w)))]),
          Val tt).
Proof. reflexivity. Qed.

Lemma statements_only_closing k : statements_only (closing k).
Proof.
  unfold closing, set_user_version.
  repeat first
    [ apply statements_only_bind; [|intros ?]
    | apply statements_only_execute
    | apply statements_only_changes
    | apply statements_only_info ].
Qed.

Lemma ver_closing k w w' r :
  closing k w = Some (w', r) → r = Val tt ∧ ver w' = k.
Proof.
  rewrite closing_run. intros [= <- <-]. simpl. by rewrite view_store.
Qed.

(** *** The three bodies *)

Lemma get_defined conf s o :
  has_option conf s o = true → ∃ v, conf !! (s, o) = Some v.
Proof.
  unfold has_option. intros [v Hv]%bool_decide_eq_true. eauto.
Qed.

Lemma statements_only_body_0 bf : statements_only (body_0 bf).
Proof.
  apply statements_only_bind; [apply statements_only_execute|].
  intros _. apply statements_only_closing.
Qed.

Lemma statements_only_body_1 conf : statements_only (body_1 conf).
Proof.
  apply statements_only_bind; [|intros _; apply statements_only_closing].
  destruct (has_option conf _ _); [|apply statements_only_ret].
  apply statements_only_bind.
  - unfold get. destruct (conf !! _);
      [apply statements_only_ret | apply statements_only_raise].
  - intros v. apply statements_only_attempt.
Qed.

Lemma statements_only_body_2 fuel : statements_only (body_2 fuel).
Proof.
  apply statements_only_bind; [apply statements_only_query|]. intros top.
  apply statements_only_bind; [apply statements_only_collect|]. intros fl.
  apply statements_only_bind; [apply statements_only_rewrite_parents|].
  intros _. apply statements_only_closing.
Qed.

Lemma body_0_ver bf w w' r :
  body_0 bf w = Some (w', r) → r = Val tt ∧ ver w' = 1.
Proof.
  unfold body_0. intros [(e & [=] & _)|(w1 & [] & _ & Hc)]%bind_inv.
  by apply ver_closing in Hc.
Qed.

(** The second body either runs to its end, or its UPDATE is refused
    and nothing has been written. *)
Lemma body_1_ver conf w w' r :
  body_1 conf w = Some (w', r) →
  (r = Val tt ∧ ver w' = 2) ∨ (r = Exc OperationalError ∧ w' = w).
Proof.
  unfold body_1. intros [(e & Hm & ->)|(w1 & [] & _ & Hc)]%bind_inv.
  - right. destruct (has_option conf _ _) eqn:Ho; [|done].
    destruct (get_defined _ _ _ Ho) as [v Hv].
    unfold get in Hm. rewrite Hv in Hm.
    unfold bind, ret, attempt in Hm.
    destruct (update_preference v _ _); [done|].
    by injection Hm as <- <-.
  - left. by apply ver_closing in Hc.
Qed.

Lemma body_2_ver fuel w w' r :
  body_2 fuel w = Some (w', r) → r = Val tt ∧ ver w' = 3.
Proof.
  unfold body_2. intros [(e & [=] & _)|(w1 & top & [= <- <-] & H)]%bind_inv.
  apply bind_inv in H as [(e & Hc & _)|(w1 & fl & Hc & H)].
  { by destruct (collect_reads _ _ _ _ _ _ Hc) as (_ & ? & ?). }
  apply bind_inv in H as [(e & Hr & _)|(w2 & [] & _ & H)].
  { destruct (rewrite_parents_returns fl w1) as [w2 Hw2]. congruence. }
  by apply ver_closing in H.
Qed.

(** *** One guarded step *)

(** What [if self.version == n: with ...: body] can do to the version,
    for a body that ends by setting it to [n + 1], or raises before it
    has written. *)
Lemma guarded_step F (n : Z) (body : M unit) w w' r :
  statements_only body →
  (∀ w1 w2 rb, ver w1 = n → body w1 = Some (w2, rb) →
     (rb = Val tt ∧ ver w2 = n + 1) ∨
     (rb = Exc OperationalError ∧ ver w2 = n)) →
  when (bool_decide (ver w = n)) (transaction F body) w = Some (w', r) →
  (ver w ≠ n ∧ w' = w ∧ r = Val tt) ∨
  (ver w = n ∧ r = Exc OperationalError ∧
     (stored w' = stored w ∨ stored w = n ∧ stored w' = n + 1) ∧
     (ver w' = n ∨ ver w' = n + 1)) ∨
  (ver w = n ∧ r = Val tt ∧ stored w = n ∧ stored w' = n + 1 ∧
     ver w' = n + 1 ∧ pending (con w') = None).
Proof.
  intros Hso Hpost. unfold when. case_bool_decide as Hv.
  2:{ intros [= <- <-]. by left. }
  intros Ht. right.
  apply transaction_inv in Ht
    as [(e & He & ->)|(w1 & w2 & rb & r' & He & Hb & Hx & ->)].
  - destruct (enter_exc _ _ _ _ He) as (-> & Hc & Hp & _). left.
    split_and!; [done|done|left; by rewrite Hc|].
    left. unfold view. by rewrite Hc, Hp.
  - destruct (enter_inv _ _ _ _ He) as (Hp & _ & Hw1).
    assert (Hin : is_Some (pending (con w1))) by (subst w1; simpl; eauto).
    assert (Hc1 : committed (con w1) = committed (con w)) by by subst w1.
    assert (Hv1 : ver w1 = n) by (subst w1; unfold view in *; simpl;
                                  by rewrite Hp in Hv).
    assert (Hs : stored w = n) by (unfold view in Hv; by rewrite Hp in Hv).
    destruct (Hso _ _ _ Hin Hb) as ([d2 Hp2] & _ & Hc2).
    destruct (exit_open _ _ _ _ _ _ _ Hp2 Hx) as (_ & Hok & Hko).
    assert (Hd2 : user_version d2 = ver w2)
      by (unfold view; by rewrite Hp2).
    assert (Hfail :
      (if raised rb then rollback_raises F (con w2)
       else commit_raises F (con w2)) = true →
      r' = Exc OperationalError ∧
      (stored w' = stored w ∨ stored w' = ver w2) ∧
      (ver w' = stored w ∨ ver w' = ver w2)).
    { intros Hf.
      destruct (Hko Hf) as (-> & [(_ & _ & Hc3 & Hp3)|(_ & Hc3 & Hp3)]);
        (split; [done|]);
        assert (Hv3 : view (con w') = d2)
          by (unfold view; rewrite Hp3; simpl; congruence);
        rewrite Hv3, Hc3.
      - split; right; congruence.
      - split; [left|right]; congruence. }
    destruct (Hpost _ _ _ Hv1 Hb) as [[-> Hv2]|[-> Hv2]]; simpl in *.
    + destruct (commit_raises F (con w2)) eqn:Hf.
      * destruct (Hfail eq_refl) as (-> & Hs' & Hv'). left.
        split_and!; [done|done|lia|lia].
      * destruct (Hok eq_refl) as (-> & Hp3 & Hc3). right.
        split_and!; try done.
        -- rewrite Hc3. congruence.
        -- unfold view at 1. rewrite Hp3. simpl. congruence.
    + left. destruct (rollback_raises F (con w2)) eqn:Hf.
      * destruct (Hfail eq_refl) as (-> & Hs' & Hv').
        split_and!; [done|done|lia|lia].
      * destruct (Hok eq_refl) as (-> & Hp3 & Hc3).
        split_and!; [done|done|left; congruence|].
        left. unfold view at 1. rewrite Hp3. simpl. congruence.
Qed.

Lemma step_0_versions F bf w w' r :
  when (bool_decide (ver w = 0)) (step_0 F bf) w = Some (w', r) →
  (ver w ≠ 0 ∧ w' = w ∧ r = Val tt) ∨
  (ver w = 0 ∧ r = Exc OperationalError ∧
     (stored w' = stored w ∨ stored w = 0 ∧ stored w' = 1) ∧
     (ver w' = 0 ∨ ver w' = 1)) ∨
  (ver w = 0 ∧ r = Val tt ∧ stored w = 0 ∧ stored w' = 1 ∧
     ver w' = 1 ∧ pending (con w') = None).
Proof.
  apply (guarded_step F 0);
    [apply statements_only_body_0
    | intros ??? _ ?; left; by eapply body_0_ver].
Qed.

Lemma step_1_versions F conf w w' r :
  when (bool_decide (ver w = 1)) (step_1 F conf) w = Some (w', r) →
  (ver w ≠ 1 ∧ w' = w ∧ r = Val tt) ∨
  (ver w = 1 ∧ r = Exc OperationalError ∧
     (stored w' = stored w ∨ stored w = 1 ∧ stored w' = 2) ∧
     (ver w' = 1 ∨ ver w' = 2)) ∨
  (ver w = 1 ∧ r = Val tt ∧ stored w = 1 ∧ stored w' = 2 ∧
     ver w' = 2 ∧ pending (con w') = None).
Proof.
  apply (guarded_step F 1);
    [apply statements_only_body_1|].
  intros w1 w2 rb Hv [?|[-> ->]]%body_1_ver; [by left|by right].
Qed.

Lemma step_2_versions F fuel w w' r :
  when (bool_decide (ver w = 2)) (step_2 F fuel) w = Some (w', r) →
  (ver w ≠ 2 ∧ w' = w ∧ r = Val tt) ∨
  (ver w = 2 ∧ r = Exc OperationalError ∧
     (stored w' = stored w ∨ stored w = 2 ∧ stored w' = 3) ∧
     (ver w' = 2 ∨ ver w' = 3)) ∨
  (ver w = 2 ∧ r = Val tt ∧ stored w = 2 ∧ stored w' = 3 ∧
     ver w' = 3 ∧ pending (con w') = None).
Proof.
  apply (guarded_step F 2);
    [apply statements_only_body_2
    | intros ??? _ ?; left; by eapply body_2_ver].
Qed.

Lemma migrate_unfold F conf bf fuel to w :
  migrate F conf bf fuel to w =
    if bool_decide (ver w >= to) then Some (w, Val tt)
    else steps F conf bf fuel
           (World (con w) (logged w ++ [MigrateFromTo (ver w) to])).
Proof. unfold migrate, bind, version, query. by case_bool_decide. Qed.

Lemma steps_versions F conf bf fuel w w' r :
  steps F conf bf fuel w = Some (w', r) →
  stored w ≤ stored w' ∧ ver w ≤ ver w' ∧
  ver w' ≤ Z.max (ver w) 3 ∧ stored w' ≤ Z.max (stored w) 3 ∧
  (r = Val tt → ¬ (0 ≤ ver w' ≤ 2)) ∧
  (¬ (0 ≤ ver w ≤ 2) → w' = w ∧ r = Val tt).
Proof.
  unfold steps. unfold bind at 1, version at 1, query.
  intros [(e & H0 & ->)|(w1 & [] & H0 & H)]%bind_inv.
  { apply step_0_versions in H0 as [(_ & _ & [=])|[?|(_ & [=] & _)]].
    split_and!; try done; lia. }
  unfold bind at 1, version at 1, query in H.
  apply bind_inv in H as [(e & H1 & ->)|(w2 & [] & H1 & H2)].
  { apply step_0_versions in H0 as [(? & -> & _)|[(_ & [=] & _)|?]];
    apply step_1_versions in H1 as [(_ & _ & [=])|[?|(_ & [=] & _)]];
    split_and!; try done; lia. }
  unfold bind, version, query in H2.
  apply step_0_versions in H0 as [(? & -> & _)|[(_ & [=] & _)|?]];
  apply step_1_versions in H1 as [(? & -> & _)|[(_ & [=] & _)|?]];
  apply step_2_versions in H2 as [(? & -> & ->)|[(? & -> & ?)|(? & -> & ?)]];
  split_and!; try done; lia.
Qed.

Lemma migrate_versions F conf bf fuel to w w' r :
  migrate F conf bf fuel to w = Some (w', r) →
  (to ≤ ver w ∧ w' = w ∧ r = Val tt) ∨
  (ver w < to ∧
   stored w ≤ stored w' ∧ ver w ≤ ver w' ∧
   ver w' ≤ Z.max (ver w) 3 ∧ stored w' ≤ Z.max (stored w) 3 ∧
   (r = Val tt → ¬ (0 ≤ ver w' ≤ 2)) ∧
   (¬ (0 ≤ ver w ≤ 2) → con w' = con w ∧ r = Val tt)).
Proof.
  rewrite migrate_unfold. case_bool_decide as Hv.
  - intros [= <- <-]. left. split_and!; [lia|done..].
  - intros Hs. right. apply steps_versions in Hs. simpl in Hs.
    destruct Hs as (? & ? & ? & ? & ? & Hskip).
    split_and!; try done; [lia|].
    intros Hn. by destruct (Hskip Hn) as [-> ->].
Qed.

Lemma steps_skip F conf bf fuel w :
  ¬ (0 ≤ ver w ≤ 2) → steps F conf bf fuel w = Some (w, Val tt).
Proof.
  intros Hv. unfold steps, bind, version, query, when.
  rewrite bool_decide_eq_false_2 by lia. simpl.
  rewrite bool_decide_eq_false_2 by lia. simpl.
  by rewrite bool_decide_eq_false_2 by lia.
Qed.

(** C3: when the version a statement reads is already at least [to],
    [migrate(to)] returns at once and leaves the connection, the database
    and the log exactly as they were.  And whenever a call [migrate(to)]
    has returned, a second call also returns and leaves the connection,
    hence the database, as the first call left it. *)
Theorem migrate_idempotent (F F' : faults) (conf : config) (bf : list Z)
    (fuel fuel' : nat) (to : Z) (w : world) :
  (to ≤ ver w → migrate F conf bf fuel to w = Some (w, Val tt)) ∧
  (∀ w1, migrate F conf bf fuel to w = Some (w1, Val tt) →
     ∃ w2, migrate F' conf bf fuel' to w1 = Some (w2, Val tt) ∧
           con w2 = con w1).
Proof.
  split.
  - intros Hv. rewrite migrate_unfold.
    by rewrite bool_decide_eq_true_2 by lia.
  - intros w1 [(Hv & -> & _)|(_ & _ & _ & _ & _ & Hn & _)]%migrate_versions.
    + exists w. rewrite migrate_unfold.
      by rewrite bool_decide_eq_true_2 by lia.
    + specialize (Hn eq_refl). rewrite migrate_unfold.
      case_bool_decide; [by exists w1|].
      rewrite steps_skip by done. by eexists.
Qed.



(** C5 as stated fails: asked to migrate a version 0 database to
    version 1, [migrate] carries it to version 3. *)
Lemma migrate_overshoots_target :
  ∃ w', migrate no_faults ∅ [] 7 1 (Sample.start (Sample.db 0))
          = Some (w', Val tt) ∧
        stored w' = 3 ∧ ¬ (stored w' ≤ Z.max 0 1).
Proof.
  eexists. split; [vm_compute; reflexivity|]. simpl. split; [done|lia].
Qed.

(** C5, as the code has it: the target is consulted by the entry guard
    only.  A call that finds the version at [to] or above changes
    nothing; otherwise the blocks for versions 0, 1 and 2 run whatever
    [to] is, so the version afterwards is at most the larger of the
    version found and MAX_VERSION.  For targets from MAX_VERSION on, it
    is therefore at most [max v to]. *)
Theorem migrate_bounded (F : faults) (conf : config) (bf : list Z)
    (fuel : nat) (to : Z) (w w' : world) (r : result unit) :
  migrate F conf bf fuel to w = Some (w', r) →
  (to ≤ ver w → w' = w) ∧
  ver w' ≤ Z.max (ver w) MAX_VERSION ∧
  stored w' ≤ Z.max (stored w) MAX_VERSION ∧
  (MAX_VERSION ≤ to →
     ver w' ≤ Z.max (ver w) to ∧ stored w' ≤ Z.max (stored w) to).
Proof.
  unfold MAX_VERSION.
  intros [(? & -> & _)|(? & _ & _ & ? & ? & _)]%migrate_versions.
  - split_and!; [done|lia..].
  - split_and!; [lia|done|done|lia].
Qed.

Lemma migrate_bounded_witness :
  ∃ w', migrate no_faults ∅ [] 7 3 (Sample.start (Sample.db 1))
          = Some (w', Val tt) ∧
        stored w' ≤ Z.max 1 3.
Proof.
  eexists.
  assert (H : migrate no_faults ∅ [] 7 3 (Sample.start (Sample.db 1))
              = Some (_, Val tt)) by (vm_compute; reflexivity).
  split; [exact H|].
  destruct (migrate_bounded _ _ _ _ _ _ _ _ H) as (_ & _ & _ & Hb).
  exact (proj2 (Hb ltac:(unfold MAX_VERSION; lia))).
Defined.

End MigrateFacts.


(** ** Bootstrap and the second step *)

Section BootstrapFacts.
Import Engine Run Txn Adapter.

Implicit Types (w : world) (F : faults) (conf : config) (bf : list Z).

Lemma select_core_table_None d :
  select_core_table d = None ↔ ∀ n, n ∈ core_tables → n ∉ tables d.
Proof.
  unfold select_core_table. rewrite head_None. split.
  - intros Hf n Hn Ht.
    assert (Hin : n ∈ filter (λ n, n ∈ core_tables) (tables d))
      by by apply list_elem_of_filter.
    rewrite Hf in Hin. by apply elem_of_nil in Hin.
  - intros Hno. destruct (filter _ (tables d)) as [|n l] eqn:Hf; [done|].
    assert (Hin : n ∈ filter (λ n, n ∈ core_tables) (tables d))
      by (rewrite Hf; left).
    apply list_elem_of_filter in Hin as [Hn Ht]. by destruct (Hno n).
Qed.

Lemma select_core_table_Some d :
  is_Some (select_core_table d) ↔ ∃ n, n ∈ core_tables ∧ n ∈ tables d.
Proof.
  split.
  - intros [n [l Hf]%head_Some]. exists n.
    apply (list_elem_of_filter (λ n, n ∈ core_tables)).
    unfold select_core_table in *. rewrite Hf. left.
  - intros (n & ? & ?). apply not_eq_None_Some.
    rewrite select_core_table_None. intros Hno. by apply (Hno n).
Qed.

Lemma create_trigger_keeps d d' :
  create_trigger d = Some d' →
  user_version d' = user_version d ∧
  tables d' = tables d ∧
  comments d' = comments d ∧
  preferences d' = preferences d ∧
  "remove_stale_threads" ∈ triggers d'.
Proof.
  unfold create_trigger. case_bool_decide; [by intros [= <-]|].
  case_bool_decide; [|done]. intros [= <-]. simpl.
  split_and!; try done. apply elem_of_app. right. left.
Qed.

Lemma create_trigger_Some d :
  "remove_stale_threads" ∈ triggers d ∨ "comments" ∈ tables d →
  is_Some (create_trigger d).
Proof.
  unfold create_trigger. intros [?|?].
  - rewrite bool_decide_eq_true_2 by done. eauto.
  - case_bool_decide; [eauto|].
    rewrite bool_decide_eq_true_2 by done. eauto.
Qed.

Lemma create_trigger_None d :
  "remove_stale_threads" ∉ triggers d → "comments" ∉ tables d →
  create_trigger d = None.
Proof.
  unfold create_trigger. intros ??.
  by rewrite !bool_decide_eq_false_2 by done.
Qed.

(** C6: construction, once the collaborators' constructors have
    returned.  If the catalog held none of the three tables, the version
    is set to MAX_VERSION directly and nothing else is done before the
    trigger statement: the connection then sees version 3, which on a
    connection with no transaction open is also what the file holds,
    the tables and rows are those the collaborators left, and the log
    has no new entry, so no block of [migrate] has run.  Construction
    then returns with the trigger installed when the collaborators left
    a comments table to put it on (or the trigger itself), and raises
    OperationalError at the trigger statement when they did not.  If one
    of the tables existed, construction is [migrate(to=MAX_VERSION)]
    followed by the trigger statement; when it returns, the version is
    not below the one found, no block of [migrate] is left to run, and
    the trigger is installed. *)
Theorem init_fresh_or_existing (F : faults) (conf : config) (bf : list Z)
    (collaborators : M unit) (fuel : nat) (w w1 : world) :
  collaborators w = Some (w1, Val tt) →
  ((∀ n, n ∈ core_tables → n ∉ tables (view (con w))) →
     ∃ w' r, init F conf bf collaborators fuel w = Some (w', r) ∧
       user_version (view (con w')) = 3 ∧
       (pending (con w1) = None → user_version (committed (con w')) = 3) ∧
       tables (view (con w')) = tables (view (con w1)) ∧
       comments (view (con w')) = comments (view (con w1)) ∧
       preferences (view (con w')) = preferences (view (con w1)) ∧
       logged w' = logged w1 ∧
       ("remove_stale_threads" ∈ triggers (view (con w1)) ∨
        "comments" ∈ tables (view (con w1)) →
          r = Val tt ∧
          "remove_stale_threads" ∈ triggers (view (con w')) ∧
          create_trigger (with_version MAX_VERSION (view (con w1)))
            = Some (view (con w'))) ∧
       ("remove_stale_threads" ∉ triggers (view (con w1)) →
        "comments" ∉ tables (view (con w1)) →
          r = Exc OperationalError ∧
          view (con w') = with_version MAX_VERSION (view (con w1)))) ∧
  ((∃ n, n ∈ core_tables ∧ n ∈ tables (view (con w))) →
     init F conf bf collaborators fuel w =
       (migrate F conf bf fuel MAX_VERSION >>
        attempt create_trigger (λ _, O)) w1 ∧
     ∀ w', init F conf bf collaborators fuel w = Some (w', Val tt) →
       user_version (view (con w1)) ≤ user_version (view (con w')) ∧
       ¬ (0 ≤ user_version (view (con w')) ≤ 2) ∧
       "remove_stale_threads" ∈ triggers (view (con w'))).
Proof.
  intros Hc. split.
  - intros Hrv%select_core_table_None.
    unfold init. unfold bind at 1, query. rewrite Hrv.
    unfold bind at 1. rewrite Hc.
    unfold bind, set_user_version, execute, attempt. simpl.
    rewrite !view_store.
    destruct (create_trigger (with_version MAX_VERSION (view (con w1))))
      as [d'|] eqn:Hct.
    + destruct (create_trigger_keeps _ _ Hct)
        as (Hv & Hts & Hcs & Hps & Htr).
      eexists _, _. split; [reflexivity|]. simpl. rewrite !view_store.
      split_and!; try done.
      * intros Hp. unfold store. simpl. by rewrite Hp.
      * intros Hno1 Hno2.
        by rewrite create_trigger_None in Hct.
    + eexists _, _. split; [reflexivity|]. simpl. rewrite !view_store.
      split_and!; try done.
      * intros Hp. unfold store. by rewrite Hp.
      * intros Hyes.
        destruct (create_trigger_Some
                    (with_version MAX_VERSION (view (con w1))) Hyes)
          as [? ?]. congruence.
  - intros [n Hrv]%select_core_table_Some.
    assert (Heq : init F conf bf collaborators fuel w =
                    (migrate F conf bf fuel MAX_VERSION >>
                     attempt create_trigger (λ _, O)) w1).
    { unfold init. unfold bind at 1, query. rewrite Hrv.
      unfold bind at 1. by rewrite Hc. }
    split; [exact Heq|]. intros w' Hi. rewrite Heq in Hi.
    apply bind_inv in Hi as [(e & _ & [=])|(w2 & [] & Hm & Ha)].
    unfold attempt in Ha.
    destruct (create_trigger (view (con w2))) as [d'|] eqn:Hct; [|done].
    injection Ha as <-. simpl. rewrite view_store.
    destruct (create_trigger_keeps _ _ Hct) as (Hv & _ & _ & _ & Htr).
    rewrite Hv. unfold MAX_VERSION in Hm.
    apply migrate_versions in Hm
      as [(Hge & -> & _)|(Hlt & _ & Hle & _ & _ & Hn & _)].
    + split_and!; [lia|lia|done].
    + specialize (Hn eq_refl). split_and!; [lia|lia|done].
Qed.

Lemma init_fresh_or_existing_witness :
  (∃ w', init no_faults ∅ [] Sample.create_tables 7
           (Sample.start (Database 0 [] [] [] [])) = Some (w', Val tt) ∧
         user_version (committed (con w')) = 3 ∧ logged w' = [] ∧
         "remove_stale_threads" ∈ triggers (view (con w'))) ∧
  (∃ w', init no_faults ∅ [] (ret tt) 7 (Sample.start (Sample.db 2))
         = Some (w', Val tt) ∧
         user_version (committed (con w')) = 3 ∧
         logged w' = [MigrateFromTo 2 3; RowsChanged 4]).
Proof.
  split.
  - destruct (init_fresh_or_existing no_faults ∅ [] Sample.create_tables 7
                (Sample.start (Database 0 [] [] [] [])) _ eq_refl)
      as [Hfresh _].
    destruct Hfresh as (w' & r & Hi & _ & Hv & _ & _ & _ & Hl & Hok & _).
    { intros n _ Hn. simpl in Hn. by apply elem_of_nil in Hn. }
    destruct Hok as (-> & Htr & _).
    { right. vm_compute. do 2 right. left. }
    exists w'. split_and!; [exact Hi|exact (Hv eq_refl)|exact Hl|exact Htr].
  - destruct (init_fresh_or_existing no_faults ∅ [] (ret tt) 7
                (Sample.start (Sample.db 2)) _ eq_refl)
      as [_ Hexisting].
    destruct Hexisting as [Heq _].
    { exists "comments". split; [right; left|left]. }
    eexists. split; [|split].
    + rewrite Heq. vm_compute. reflexivity.
    + reflexivity.
    + reflexivity.
Defined.

(** *** The second step *)

Lemma preference_update v k d :
  is_Some (preference k d) →
  preference k (set_preference v k d) = Some v.
Proof.
  unfold preference, set_preference. simpl.
  induction (preferences d) as [|[k' v'] l IH]; simpl.
  - by intros [? [=]].
  - destruct (decide (k' = k)) as [->|Hne].
    + rewrite bool_decide_eq_true_2 by done.
      rewrite !filter_cons_True by done. done.
    + rewrite bool_decide_eq_false_2 by done.
      rewrite !filter_cons_False by done. apply IH.
Qed.

Lemma preference_update_absent v k d :
  preference k d = None → set_preference v k d = d.
Proof.
  unfold preference, set_preference. destruct d as [uv ts tr cs ps].
  unfold with_preferences. simpl. intros Hn. f_equal.
  induction ps as [|[k' v'] l IH]; simpl; [done|].
  destruct (decide (k' = k)) as [->|Hne].
  - rewrite filter_cons_True in Hn by done. done.
  - rewrite filter_cons_False in Hn by done.
    rewrite bool_decide_eq_false_2 by done. f_equal. by apply IH.
Qed.

(** The second body runs to its end when it has no UPDATE to issue or
    the preferences table is there. *)
Lemma body_1_run conf w d :
  pending (con w) = Some d →
  conf !! ("general", "session-key") = None ∨ "preferences" ∈ tables d →
  ∃ w', body_1 conf w = Some (w', Val tt) ∧
    pending (con w') = Some (moved conf d).
Proof.
  intros Hp Hok. unfold body_1, has_option, get, moved.
  destruct (conf !! ("general", "session-key")) as [v|] eqn:Hv.
  - destruct Hok as [|Ht]; [done|].
    rewrite bool_decide_eq_true_2 by eauto.
    unfold bind at 1 2, ret, attempt, update_preference.
    assert (Hvw : view (con w) = d) by (unfold view; by rewrite Hp).
    rewrite Hvw. rewrite bool_decide_eq_true_2 by done.
    eexists. split; [reflexivity|]. simpl.
    unfold store, view. simpl. by rewrite Hp.
  - rewrite bool_decide_eq_false_2 by (by intros [? ?]).
    eexists. split; [reflexivity|]. simpl.
    unfold store, view. simpl. by rewrite Hp.
Qed.

(** With the option defined and no preferences table, the UPDATE is
    refused before anything is written. *)
Lemma body_1_refused conf w d v :
  pending (con w) = Some d →
  conf !! ("general", "session-key") = Some v →
  "preferences" ∉ tables d →
  body_1 conf w = Some (w, Exc OperationalError).
Proof.
  intros Hp Hv Ht. unfold body_1, has_option, get.
  rewrite Hv. rewrite bool_decide_eq_true_2 by eauto.
  unfold bind, ret, attempt, update_preference.
  assert (Hvw : view (con w) = d) by (unfold view; by rewrite Hp).
  rewrite Hvw. by rewrite bool_decide_eq_false_2 by done.
Qed.

(** A block that returns, in a transaction that was entered: either the
    commit goes through and publishes the working copy, or it is refused
    and the statement raises; the file then holds what it held, unless
    the restoring assignment has committed the working copy after all. *)
Lemma transaction_returned {A} F (body : M A) w w1 w2 orig (a : A) :
  statements_only body →
  enter F w = Some (w1, Val orig) →
  body w1 = Some (w2, Val a) →
  ∃ w3 r3, transaction F body w = Some (w3, r3) ∧
    logged w3 = logged w2 ∧
    isolation_level (con w3) = isolation_level (con w) ∧
    total_changes (con w3) = total_changes (con w2) ∧
    (commit_raises F (con w2) = false →
       r3 = Val a ∧ committed (con w3) = view (con w2) ∧
       pending (con w3) = None) ∧
    (commit_raises F (con w2) = true →
       r3 = Exc OperationalError ∧
       (committed (con w3) = committed (con w) ∨
        committed (con w3) = view (con w2))).
Proof.
  intros Hso He Hb.
  destruct (enter_inv _ _ _ _ He) as (Hp & -> & Hw1).
  assert (Hin : is_Some (pending (con w1))) by (subst w1; simpl; eauto).
  assert (Hc1 : committed (con w1) = committed (con w)) by by subst w1.
  destruct (Hso _ _ _ Hin Hb) as ([d2 Hp2] & _ & Hc2).
  assert (Hv2 : view (con w2) = d2) by (unfold view; by rewrite Hp2).
  destruct (exit_total F (isolation_level (con w)) false w2)
    as (w3 & r' & Hx).
  destruct (exit_isolation _ _ _ _ _ _ Hx) as [Hi3 Hl3].
  destruct (exit_open _ _ _ _ _ _ _ Hp2 Hx) as (Htc & Hok & Hko).
  exists w3, (match r' with Exc e => Exc e | Val _ => Val a end).
  split_and!; try done.
  - unfold transaction. rewrite He, Hb. simpl. rewrite Hx. by destruct r'.
  - intros Hf. destruct (Hok Hf) as (-> & ? & ?).
    split_and!; [done|congruence|done].
  - intros Hf.
    destruct (Hko Hf) as (-> & [(_ & _ & ? & _)|(_ & ? & _)]);
      (split; [done|]); [right|left]; congruence.
Qed.

(** A block that raises, in a transaction that was entered: the
    statement raises; once the rollback has gone through the file holds
    what it held and no transaction is open. *)
Lemma transaction_raised {A} F (body : M A) w w1 w2 orig e :
  statements_only body →
  enter F w = Some (w1, Val orig) →
  body w1 = Some (w2, Exc e) →
  ∃ w3 r3, transaction F body w = Some (w3, r3) ∧
    (r3 = Exc e ∨ r3 = Exc OperationalError) ∧
    (committed (con w3) = committed (con w) ∨
     committed (con w3) = view (con w2)) ∧
    (rollback_raises F (con w2) = false →
       r3 = Exc e ∧ committed (con w3) = committed (con w) ∧
       pending (con w3) = None).
Proof.
  intros Hso He Hb.
  destruct (enter_inv _ _ _ _ He) as (Hp & -> & Hw1).
  assert (Hin : is_Some (pending (con w1))) by (subst w1; simpl; eauto).
  assert (Hc1 : committed (con w1) = committed (con w)) by by subst w1.
  destruct (Hso _ _ _ Hin Hb) as ([d2 Hp2] & _ & Hc2).
  assert (Hv2 : view (con w2) = d2) by (unfold view; by rewrite Hp2).
  destruct (exit_total F (isolation_level (con w)) true w2)
    as (w3 & r' & Hx).
  destruct (exit_open _ _ _ _ _ _ _ Hp2 Hx) as (_ & Hok & Hko).
  exists w3, (match r' with Exc e' => Exc e' | Val _ => Exc e end).
  split; [unfold transaction; rewrite He, Hb; simpl; rewrite Hx;
          by destruct r'|].
  destruct (rollback_raises F (con w2)) eqn:Hf.
  - destruct (Hko eq_refl) as (-> & [(_ & _ & ? & _)|(_ & ? & _)]);
      (split_and!; [by right| |done]); [right|left]; congruence.
  - destruct (Hok eq_refl) as (-> & ? & ?).
    split_and!; [by left|left; congruence|].
    intros _. split_and!; [done|congruence|done].
Qed.

Lemma enter_reliable F w :
  reliable F → pending (con w) = None →
  ∃ w1, enter F w = Some (w1, Val (isolation_level (con w))) ∧
    pending (con w1) = Some (committed (con w)) ∧
    committed (con w1) = committed (con w) ∧
    total_changes (con w1) = total_changes (con w) ∧
    logged w1 = logged w.
Proof.
  intros HF Hp. unfold enter, begin_immediate. simpl. rewrite Hp.
  destruct (HF (with_isolation (Some "IMMEDIATE") (con w))) as (-> & _).
  eexists. split; [reflexivity|]. done.
Qed.

(** C7, as the code has it.  The second step never fails for want of the
    option.  On an engine that does not refuse it returns whenever it
    has no UPDATE to issue or the preferences table is there; with the
    option defined and no preferences table it raises OperationalError
    and leaves the file as it was.  The bump and the data change are
    one transaction: the file afterwards holds either what it held or
    version 2 together with the data change, the latter whenever the
    step returns and, on an engine that does not refuse, never when it
    raises.  The data change is an
    UPDATE: with the option defined, every existing row of key
    'session-key' gets the configured value, so the value is stored
    when such a row exists and no row is added when none does; with the
    option absent, only the version changes. *)
Theorem step_1_session_key (F : faults) (conf : config) (w : world) :
  ∃ w' r, step_1 F conf w = Some (w', r) ∧
    r ≠ Exc NoOptionError ∧
    (reliable F → pending (con w) = None →
     conf !! ("general", "session-key") = None ∨
       "preferences" ∈ tables (committed (con w)) →
     r = Val tt) ∧
    (is_Some (conf !! ("general", "session-key")) →
     "preferences" ∉ tables (committed (con w)) →
     r = Exc OperationalError ∧
     committed (con w') = committed (con w)) ∧
    (r = Val tt →
       committed (con w') = moved conf (committed (con w)) ∧
       user_version (committed (con w')) = 2 ∧
       pending (con w') = None) ∧
    (committed (con w') = committed (con w) ∨
     committed (con w') = moved conf (committed (con w))) ∧
    (reliable F → r ≠ Val tt →
       committed (con w') = committed (con w)) ∧
    (∀ v, conf !! ("general", "session-key") = Some v →
       is_Some (preference "session-key" (committed (con w))) →
       preference "session-key" (moved conf (committed (con w))) = Some v) ∧
    (∀ v, conf !! ("general", "session-key") = Some v →
       preference "session-key" (committed (con w)) = None →
       moved conf (committed (con w)) = with_version 2 (committed (con w))) ∧
    (conf !! ("general", "session-key") = None →
       moved conf (committed (con w)) = with_version 2 (committed (con w))).
Proof.
  assert (Hmoved :
    (∀ v, conf !! ("general", "session-key") = Some v →
       is_Some (preference "session-key" (committed (con w))) →
       preference "session-key" (moved conf (committed (con w))) = Some v) ∧
    (∀ v, conf !! ("general", "session-key") = Some v →
       preference "session-key" (committed (con w)) = None →
       moved conf (committed (con w)) = with_version 2 (committed (con w))) ∧
    (conf !! ("general", "session-key") = None →
       moved conf (committed (con w)) = with_version 2 (committed (con w)))).
  { unfold moved. split_and!.
    - intros v -> Hrow. by apply (preference_update v) in Hrow.
    - intros v -> Hno. by rewrite preference_update_absent.
    - by intros ->. }
  destruct Hmoved as (Hm1 & Hm2 & Hm3).
  destruct (enter_total F w) as (w1 & [orig|e] & He).
  - destruct (enter_inv _ _ _ _ He) as (Hp & -> & Hw1).
    assert (Hp1 : pending (con w1) = Some (committed (con w)))
      by by subst w1.
    destruct (decide (conf !! ("general", "session-key") = None ∨
                      "preferences" ∈ tables (committed (con w))))
      as [Hcan|Hcannot].
    + destruct (body_1_run conf w1 (committed (con w)) Hp1 Hcan)
        as (w2 & Hb & Hp2).
      destruct (transaction_returned F _ _ _ _ _ _
                  (statements_only_body_1 conf) He Hb)
        as (w3 & r3 & Ht & _ & _ & _ & Hok & Hko).
      assert (Hv : view (con w2) = moved conf (committed (con w)))
        by (unfold view; by rewrite Hp2).
      exists w3, r3. split; [exact Ht|].
      assert (Hnot : is_Some (conf !! ("general", "session-key")) →
                     "preferences" ∉ tables (committed (con w)) → False).
      { intros [v Hsome] Hno. destruct Hcan; [congruence|done]. }
      destruct (commit_raises F (con w2)) eqn:Hf.
      * destruct (Hko eq_refl) as (-> & Hc). rewrite Hv in Hc.
        split_and!;
          [ done
          | intros HF; destruct (HF (con w2)) as (_ & ? & _); congruence
          | intros ??; by destruct Hnot
          | done
          | exact Hc
          | intros HF; destruct (HF (con w2)) as (_ & ? & _); congruence
          | exact Hm1 | exact Hm2 | exact Hm3 ].
      * destruct (Hok eq_refl) as (-> & Hc & Hp3). rewrite Hv in Hc.
        split_and!;
          [ done
          | done
          | intros ??; by destruct Hnot
          | intros _; by rewrite Hc
          | by right
          | done
          | exact Hm1 | exact Hm2 | exact Hm3 ].
    + destruct (conf !! ("general", "session-key")) as [v|] eqn:Hopt;
        [|by destruct Hcannot; left].
      assert (Hno : "preferences" ∉ tables (committed (con w)))
        by (intros ?; apply Hcannot; by right).
      assert (Hb := body_1_refused conf w1 _ v Hp1 Hopt Hno).
      destruct (transaction_raised F _ _ _ _ _ _
                  (statements_only_body_1 conf) He Hb)
        as (w3 & r3 & Ht & Hr & Hc & Hrb).
      assert (Hv : view (con w1) = committed (con w))
        by (unfold view; by rewrite Hp1).
      rewrite Hv in Hc.
      assert (Hr3 : r3 = Exc OperationalError) by by destruct Hr.
      assert (Hc3 : committed (con w3) = committed (con w))
        by by destruct Hc.
      subst r3.
      exists w3, (Exc OperationalError). split; [exact Ht|].
      split_and!;
        [ done
        | intros _ _ [?|?]; done
        | done
        | done
        | by left
        | done
        | exact Hm1 | exact Hm2 | exact Hm3 ].
  - destruct (enter_exc _ _ _ _ He) as (-> & Hc & _).
    exists w1, (Exc OperationalError).
    split; [unfold step_1, transaction; by rewrite He|].
    split_and!;
      [ done
      | intros HF Hp _; destruct (enter_reliable F w HF Hp) as (? & ? & _);
        congruence
      | done
      | done
      | by left
      | done
      | exact Hm1 | exact Hm2 | exact Hm3 ].
Qed.

(** C7 as stated fails: the option is defined, the preferences table has
    no 'session-key' row, and after the step the store still has no value
    under that key. *)
Lemma session_key_not_stored :
  ∃ w', step_1 no_faults Sample.session_conf (Sample.start (Sample.db 1))
          = Some (w', Val tt) ∧
        has_option Sample.session_conf "general" "session-key" = true ∧
        preference "session-key" (committed (con w')) = None ∧
        preference "session-key" (committed (con w')) ≠ Some "secret".
Proof.
  eexists. split; [vm_compute; reflexivity|]. by vm_compute.
Qed.

End BootstrapFacts.


(** ** The third step: flattening the reply forest *)

Section FlattenFacts.
Import Engine Run Txn Adapter.

Implicit Types (w : world) (F : faults) (cs : list comment)
  (fl : gmap Z (gset Z)) (ids seen : list Z).

(** *** Rows and the forest *)

Lemma row_unique cs c c' :
  NoDup (id <$> cs) → c ∈ cs → c' ∈ cs → id c = id c' → c = c'.
Proof.
  induction cs as [|a cs IH]; simpl; [by intros _ ?%elem_of_nil|].
  rewrite NoDup_cons. intros [Ha Hnd] Hc Hc' Hid.
  apply elem_of_cons in Hc as [->|Hc], Hc' as [->|Hc']; [done| | |by apply IH].
  - destruct Ha. rewrite Hid. by apply list_elem_of_fmap_2.
  - destruct Ha. rewrite <-Hid. by apply list_elem_of_fmap_2.
Qed.

Lemma elem_of_select_children p n d :
  n ∈ select_children p d ↔ child (comments d) p n.
Proof.
  unfold select_children, child. rewrite list_elem_of_fmap. split.
  - intros (c & -> & [Hp Hc]%list_elem_of_filter). eauto.
  - intros (c & Hc & <- & Hp). exists c. split; [done|].
    by apply list_elem_of_filter.
Qed.

Lemma elem_of_select_top r d :
  r ∈ select_top d ↔ top_level (comments d) r.
Proof.
  unfold select_top, top_level. rewrite list_elem_of_fmap. split.
  - intros (c & -> & [Hp Hc]%list_elem_of_filter). eauto.
  - intros (c & Hc & <- & Hp). exists c. split; [done|].
    by apply list_elem_of_filter.
Qed.

Lemma NoDup_select_children p d :
  NoDup (id <$> comments d) → NoDup (select_children p d).
Proof.
  intros Hnd. eapply sublist_NoDup; [exact Hnd|].
  apply fmap_sublist, sublist_filter.
Qed.

Lemma child_parent_unique cs p p' n :
  NoDup (id <$> cs) → child cs p n → child cs p' n → p = p'.
Proof.
  intros Hnd (c & Hc & Hid & Hp) (c' & Hc' & Hid' & Hp').
  assert (c = c') by (eapply row_unique; eauto; congruence). congruence.
Qed.

Lemma top_level_no_parent cs r p :
  NoDup (id <$> cs) → top_level cs r → ¬ child cs p r.
Proof.
  intros Hnd (c & Hc & Hid & Hp) (c' & Hc' & Hid' & Hp').
  assert (c = c') by (eapply row_unique; eauto; congruence). congruence.
Qed.

Lemma child_in_table cs p n : child cs p n → n ∈ id <$> cs.
Proof. intros (c & Hc & <- & _). by apply list_elem_of_fmap_2. Qed.

Lemma descendant_unfold cs r n :
  descendant cs r n ↔
  child cs r n ∨ ∃ s, child cs r s ∧ descendant cs s n.
Proof.
  unfold descendant. split.
  - intros H. inv H; eauto.
  - intros [?|(s & ? & ?)]; [by apply tc_once | by eapply tc_l].
Qed.

(** The last link of a chain. *)
Lemma descendant_last cs r n :
  descendant cs r n →
  child cs r n ∨ ∃ p, descendant cs r p ∧ child cs p n.
Proof.
  unfold descendant. revert n. apply tc_ind_r; eauto.
Qed.

Lemma descendant_has_parent cs r n :
  descendant cs r n → ∃ p, child cs p n.
Proof. intros [?|(p & _ & ?)]%descendant_last; eauto. Qed.

Lemma top_level_not_descendant cs r r' :
  NoDup (id <$> cs) → top_level cs r → ¬ descendant cs r' r.
Proof.
  intros Hnd Hr [p Hp]%descendant_has_parent.
  by eapply top_level_no_parent.
Qed.

(** A comment hangs under one root at most. *)
Lemma descendant_root_unique cs r r' n :
  NoDup (id <$> cs) → top_level cs r → top_level cs r' →
  descendant cs r n → descendant cs r' n → r = r'.
Proof.
  intros Hnd Hr Hr' Hd. revert n Hd r' Hr'.
  unfold descendant at 1.
  apply (tc_ind_r (λ n, ∀ r', top_level cs r' → descendant cs r' n → r = r')).
  - intros n Hc r' Hr' [Hc'|(p & Hd' & Hc')]%descendant_last.
    + by eapply child_parent_unique.
    + assert (p = r) as -> by by eapply child_parent_unique.
      by destruct (top_level_not_descendant cs r r' Hnd Hr).
  - intros p n Hd Hc IH r' Hr' [Hc'|(p' & Hd' & Hc')]%descendant_last.
    + assert (p = r') as -> by by eapply child_parent_unique.
      by destruct (top_level_not_descendant cs r' r Hnd Hr').
    + assert (p' = p) as -> by by eapply child_parent_unique.
      by apply IH.
Qed.

(** *** The work stack *)

Lemma pop_None ids : pop ids = None ↔ ids = [].
Proof.
  unfold pop. destruct (last ids) eqn:Hl.
  - split; [done|]. intros ->. done.
  - by apply last_None in Hl.
Qed.

Lemma pop_Some ids x ids' : pop ids = Some (x, ids') ↔ ids = ids' ++ [x].
Proof.
  unfold pop. split.
  - destruct (last ids) as [y|] eqn:Hl; [|done].
    apply last_Some in Hl as [l ->]. intros [= <- <-].
    by rewrite removelast_last.
  - intros ->. by rewrite last_snoc, removelast_last.
Qed.

(** *** The traversal finishes *)

Lemma walk_inv_bound cs root ids seen :
  walk_inv cs root ids seen →
  (length ids + length seen ≤ length cs)%nat.
Proof.
  intros [Hnd Hin]. rewrite <-length_app, <-(length_fmap id cs).
  apply submseteq_length, NoDup_submseteq; [done|].
  intros y Hy. by apply Hin.
Qed.

Lemma walk_inv_step cs root ids x seen d :
  cs = comments d → NoDup (id <$> cs) → top_level cs root →
  walk_inv cs root (ids ++ [x]) seen →
  walk_inv cs root (ids ++ select_children x d) (x :: seen).
Proof.
  intros -> Hcs Hroot [Hnd Hin].
  assert (Hnew : ∀ y, y ∈ select_children x d →
            (y ∉ ids) ∧ (y ≠ x) ∧ (y ∉ seen)).
  { intros y Hy%elem_of_select_children.
    assert (Hold : y ∈ (ids ++ [x]) ++ seen → False).
    { intros Hy'. destruct (Hin _ Hy') as [_ [->|(p & Hp & Hpy)]].
      - by eapply top_level_no_parent.
      - assert (p = x) as -> by by eapply child_parent_unique.
        apply NoDup_app in Hnd as (_ & Hdisj & _).
        apply (Hdisj x); [|done]. apply elem_of_app. right. left. }
    split_and!.
    - intros ?. apply Hold. rewrite !elem_of_app. eauto.
    - intros ->. apply Hold. rewrite !elem_of_app, list_elem_of_singleton.
      eauto.
    - intros ?. apply Hold. rewrite !elem_of_app. eauto. }
  split.
  - apply NoDup_app in Hnd as (Hnd1 & Hdisj & Hnd2).
    apply NoDup_app in Hnd1 as (Hnd1 & Hx & _).
    apply NoDup_app. split_and!.
    + apply NoDup_app. split_and!;
        [done| |by apply NoDup_select_children].
      intros y Hy Hy'. by destruct (Hnew y Hy') as (? & _).
    + intros y [Hy|Hy]%elem_of_app [->|Hy']%elem_of_cons.
      * apply (Hx x Hy). left.
      * apply (Hdisj y); [|done]. apply elem_of_app. by left.
      * by destruct (Hnew x Hy) as (_ & ? & _).
      * by destruct (Hnew y Hy) as (_ & _ & ?).
    + apply NoDup_cons. split; [|done].
      apply Hdisj. apply elem_of_app. right. left.
  - intros y [[Hy|Hy]%elem_of_app|Hy]%elem_of_app.
    + destruct (Hin y) as [? Hp]; [rewrite !elem_of_app; eauto|].
      split; [done|]. destruct Hp as [?|(p & ? & ?)]; [by left|right].
      exists p. split; [by right|done].
    + apply elem_of_select_children in Hy. split;
        [by eapply child_in_table|].
      right. exists x. split; [left|done].
    + destruct (Hin y) as [? Hp].
      { apply elem_of_cons in Hy as [->|Hy]; rewrite !elem_of_app;
          [left; right; left | by right]. }
      split; [done|]. destruct Hp as [?|(p & ? & ?)]; [by left|right].
      exists p. split; [by right|done].
Qed.

Lemma descend_finishes fuel root ids seen fl w :
  NoDup (id <$> comments (view (con w))) →
  top_level (comments (view (con w))) root →
  walk_inv (comments (view (con w))) root ids seen →
  (length (comments (view (con w))) < length seen + fuel)%nat →
  ∃ fl', descend fuel root ids fl w = Some (w, Val fl').
Proof.
  intros Hcs Hroot. revert ids seen fl.
  induction fuel as [|fuel IH]; intros ids seen fl Hinv Hfuel; simpl.
  - destruct (pop ids) as [[x ids']|] eqn:Hpop; [|by eexists].
    apply pop_Some in Hpop as ->. apply walk_inv_bound in Hinv.
    rewrite length_app in Hinv. simpl in Hinv. lia.
  - destruct (pop ids) as [[x ids']|] eqn:Hpop; [|by eexists].
    apply pop_Some in Hpop as ->. unfold bind, query.
    apply (IH _ (x :: seen)).
    + by apply walk_inv_step.
    + simpl. lia.
Qed.

(** *** What the traversal collects *)

Lemma lookup_update root rv fl k :
  default ∅ (update root rv fl !! k) =
    if decide (k = root)
    then default ∅ (fl !! root) ∪ list_to_set rv
    else default ∅ (fl !! k).
Proof.
  unfold update. case_decide as Hk.
  - subst k. by rewrite lookup_insert_eq.
  - by rewrite lookup_insert_ne.
Qed.

Lemma descend_collects fuel root ids fl w w' fl' :
  descend fuel root ids fl w = Some (w', Val fl') →
  ∀ k y, y ∈ default ∅ (fl' !! k) ↔
    y ∈ default ∅ (fl !! k) ∨
    (k = root ∧ ∃ s, s ∈ ids ∧ descendant (comments (view (con w))) s y).
Proof.
  revert ids fl. induction fuel as [|fuel IH]; intros ids fl; simpl;
    destruct (pop ids) as [[x ids']|] eqn:Hpop; try done.
  - apply pop_None in Hpop as ->. intros [= <- <-] k y.
    split; [by left|]. intros [?|(_ & s & Hs & _)]; [done|].
    by apply elem_of_nil in Hs.
  - apply pop_Some in Hpop as ->. unfold bind, query.
    intros Hd k y. rewrite (IH _ _ Hd k y), lookup_update.
    case_decide as Hk.
    + subst k. rewrite elem_of_union, elem_of_list_to_set. split.
      * intros [[?|Hy]|(_ & s & [Hs|Hs]%elem_of_app & Hsy)]; [by left|..];
          right; (split; [done|]).
        -- exists x. split; [apply elem_of_app; right; left|].
           apply elem_of_select_children in Hy. by apply tc_once.
        -- exists s. split; [apply elem_of_app; by left|done].
        -- exists x. split; [apply elem_of_app; right; left|].
           apply elem_of_select_children in Hs. by eapply tc_l.
      * intros [?|(_ & s & [Hs|Hs]%elem_of_app & Hsy)];
          [by left; left| |apply list_elem_of_singleton in Hs as ->].
        -- right. split; [done|]. exists s. split; [|done].
           apply elem_of_app. by left.
        -- apply descendant_unfold in Hsy as [Hc|(s' & Hc & Hs')].
           ++ left. right. by apply elem_of_select_children.
           ++ right. split; [done|]. exists s'. split; [|done].
              apply elem_of_app. right. by apply elem_of_select_children.
    + split; (intros [?|[? _]]; [by left|done]).
  - apply pop_None in Hpop as ->. intros [= <- <-] k y.
    split; [by left|]. intros [?|(_ & s & Hs & _)]; [done|].
    by apply elem_of_nil in Hs.
Qed.

Lemma collect_collects fuel top fl w w' fl' :
  collect fuel top fl w = Some (w', Val fl') →
  ∀ k y, y ∈ default ∅ (fl' !! k) ↔
    y ∈ default ∅ (fl !! k) ∨
    (k ∈ top ∧ descendant (comments (view (con w))) k y).
Proof.
  revert fl. induction top as [|root top IH]; intros fl; simpl.
  - intros [= <- <-] k y. split; [by left|].
    intros [?|[Hk _]]; [done|]. by apply elem_of_nil in Hk.
  - intros [(e & Hd & [=])|(w1 & fl1 & Hd & Hc)]%bind_inv k y.
    destruct (descend_reads _ _ _ _ _ _ _ Hd) as (-> & _).
    rewrite (IH _ Hc k y), (descend_collects _ _ _ _ _ _ _ Hd k y).
    rewrite elem_of_cons. split.
    + intros [[?|(-> & s & Hs & ?)]|[? ?]]; eauto.
      apply list_elem_of_singleton in Hs as ->. eauto.
    + intros [?|[[->|?] ?]]; eauto.
      left. right. split; [done|]. exists root. split; [left|done].
Qed.

Lemma collect_finishes fuel top fl w :
  NoDup (id <$> comments (view (con w))) →
  (∀ r, r ∈ top → top_level (comments (view (con w))) r) →
  (length (comments (view (con w))) < fuel)%nat →
  ∃ fl', collect fuel top fl w = Some (w, Val fl').
Proof.
  intros Hcs Htop Hfuel. revert fl.
  induction top as [|root top IH]; intros fl; simpl; [by eexists|].
  assert (Hroot : top_level (comments (view (con w))) root)
    by (apply Htop; left).
  destruct (descend_finishes fuel root [root] [] fl w Hcs Hroot)
    as [fl1 Hd]; [|simpl; lia|].
  { split; [apply NoDup_singleton|].
    intros y Hy. apply list_elem_of_singleton in Hy as ->.
    split; [|by left].
    destruct Hroot as (c & Hc & <- & _). by apply list_elem_of_fmap_2. }
  unfold bind. rewrite Hd. apply IH. intros r Hr. apply Htop. by right.
Qed.

(** *** The rewrites *)

Lemma for_each_app {A} (l1 l2 : list A) (f : A → M unit) w :
  for_each (l1 ++ l2) f w = (for_each l1 f >> for_each l2 f) w.
Proof.
  revert w. induction l1 as [|a l1 IH]; intros w; simpl.
  { reflexivity. }
  unfold bind in *. destruct (f a w) as [[w1 [[]|e]]|]; [|done..].
  apply IH.
Qed.

Lemma for_each_fmap {A B} (g : A → B) (l : list A) (f : B → M unit) w :
  for_each (g <$> l) f w = for_each l (λ a, f (g a)) w.
Proof.
  revert w. induction l as [|a l IH]; intros w; simpl; [done|].
  unfold bind. destruct (f (g a) w) as [[w1 [[]|e]]|]; [|done..].
  apply IH.
Qed.

Lemma rewrite_parents_issued fl w :
  rewrite_parents fl w =
    for_each (issued fl)
      (λ u, execute (update_parent u.1 u.2) (update_parent_rows u.2)) w.
Proof.
  unfold rewrite_parents, issued. revert w.
  induction ((map_to_list fl).*1) as [|k ks IH]; intros w; [done|].
  simpl. rewrite for_each_app. unfold bind. rewrite for_each_fmap. simpl.
  destruct (for_each (elements _) _ w) as [[w1 [[]|e]]|];
    [|done..].
  apply IH.
Qed.

Lemma for_each_execute {A} (us : list A) (f : A → database → database)
    (rows : A → database → nat) w :
  ∃ w', for_each us (λ u, execute (f u) (rows u)) w = Some (w', Val tt) ∧
    view (con w') = foldl (λ d u, f u d) (view (con w)) us ∧
    logged w' = logged w.
Proof.
  revert w. induction us as [|u us IH]; intros w; simpl; [by eexists|].
  unfold bind, execute at 1.
  destruct (IH (with_con (store (f u (view (con w)))
                            (rows u (view (con w))) (con w)) w))
    as (w' & -> & Hv & Hl).
  exists w'. split; [done|]. simpl in *. by rewrite view_store in Hv.
Qed.

Lemma foldl_update_parent us d :
  foldl (λ d u, update_parent u.1 u.2 d) d us =
    with_comments (reparent us <$> comments d) d.
Proof.
  revert d. induction us as [|u us IH]; intros d; simpl.
  - destruct d. unfold with_comments. simpl. f_equal.
    by rewrite list_fmap_id.
  - rewrite IH. unfold update_parent, with_comments. simpl. f_equal.
    rewrite <-list_fmap_compose. by apply list_fmap_ext.
Qed.

Lemma reparent_spec us c :
  id (reparent us c) = id c ∧ voters (reparent us c) = voters c ∧
  columns (reparent us c) = columns c ∧
  ((parent (reparent us c) = parent c ∧ ∀ k, (k, id c) ∉ us) ∨
   (∃ k, (k, id c) ∈ us ∧ parent (reparent us c) = Some k)).
Proof.
  revert c. induction us as [|[k n] us IH]; intros c; simpl.
  - split_and!; try done. left. split; [done|]. intros k.
    apply not_elem_of_nil.
  - case_bool_decide as Hn; simpl in Hn.
    + destruct (IH (set_parent k c)) as (Hi & Hv & Hc & Hp). simpl in *.
      split_and!; try done. right.
      destruct Hp as [[Hp _]|(k' & Hk' & Hp)].
      * exists k. split; [subst n; left|done].
      * exists k'. split; [by right|done].
    + destruct (IH c) as (Hi & Hv & Hc & Hp).
      split_and!; try done.
      destruct Hp as [[Hp Hno]|(k' & Hk' & Hp)].
      * left. split; [done|]. intros k' [[= _ ?]|?]%elem_of_cons;
          [done|by eapply Hno].
      * right. exists k'. split; [by right|done].
Qed.

Lemma elem_of_issued fl k n :
  (k, n) ∈ issued fl ↔ n ∈ default ∅ (fl !! k).
Proof.
  unfold issued. rewrite list_elem_of_bind. split.
  - intros (k' & [n' [[= <- <-] Hn]]%list_elem_of_fmap & _).
    by apply elem_of_elements in Hn.
  - intros Hn. exists k. split.
    + apply list_elem_of_fmap. exists n. split; [done|].
      by apply elem_of_elements.
    + destruct (fl !! k) as [s|] eqn:Hk; [|by apply not_elem_of_empty in Hn].
      apply list_elem_of_fmap. exists (k, s). split; [done|].
      by apply elem_of_map_to_list.
Qed.

(** *** The block and the step *)

Lemma body_2_run fuel w d :
  pending (con w) = Some d → NoDup (id <$> comments d) →
  (length (comments d) < fuel)%nat →
  ∃ w' fl, body_2 fuel w = Some (w', Val tt) ∧
    view (con w') =
      with_version 3
        (with_comments (reparent (issued fl) <$> comments d) d) ∧
    ∀ k y, (k, y) ∈ issued fl ↔
      top_level (comments d) k ∧ descendant (comments d) k y.
Proof.
  intros Hp Hnd Hfuel.
  assert (Hv : view (con w) = d) by (unfold view; by rewrite Hp).
  destruct (collect_finishes fuel (select_top d) ∅ w) as [fl Hc].
  { by rewrite Hv. }
  { intros r Hr. rewrite Hv. by apply elem_of_select_top. }
  { by rewrite Hv. }
  destruct (for_each_execute (issued fl)
              (λ u, update_parent u.1 u.2)
              (λ u, update_parent_rows u.2) w) as (w2 & Hr & Hv2 & _).
  exists (World (store (with_version 3 (view (con w2))) 0 (con w2))
            (logged w2 ++
               [RowsChanged
                  (total_changes (store (with_version 3 (view (con w2))) 0
                                    (con w2)))])), fl.
  split_and!.
  - unfold body_2. unfold bind at 1, query. rewrite Hv.
    unfold bind at 1. rewrite Hc.
    unfold bind at 1. rewrite rewrite_parents_issued, Hr.
    apply closing_run.
  - simpl. rewrite view_store, Hv2, Hv. by rewrite foldl_update_parent.
  - intros k y. rewrite elem_of_issued.
    rewrite (collect_collects _ _ _ _ _ _ Hc k y), Hv.
    rewrite lookup_empty. simpl. rewrite elem_of_select_top. split.
    + intros [[]%not_elem_of_empty|?]. done.
    + by right.
Qed.

(** C1, as the code has it.  On a table with distinct ids, an engine that
    does not refuse and fuel for one turn per row and one more, the third
    step returns and commits version 3.  Every row keeps its id, voters
    and other columns; every comment reachable from a root along parent
    links, at any depth, ends with that root as its parent; and every
    comment that hangs under no root, in particular every root, with or
    without descendants, is left exactly as it was. *)
Theorem step_2_flattens (F : faults) (fuel : nat) (w : world)
    (cs : list comment) :
  comments (committed (con w)) = cs →
  reliable F → pending (con w) = None →
  NoDup (id <$> cs) → (length cs < fuel)%nat →
  ∃ w' g, step_2 F fuel w = Some (w', Val tt) ∧
    pending (con w') = None ∧
    committed (con w') =
      with_version 3 (with_comments (g <$> cs) (committed (con w))) ∧
    ∀ c, c ∈ cs →
      id (g c) = id c ∧ voters (g c) = voters c ∧
      columns (g c) = columns c ∧
      (∀ r, top_level cs r → descendant cs r (id c) →
         parent (g c) = Some r) ∧
      ((∀ r, top_level cs r → ¬ descendant cs r (id c)) → g c = c) ∧
      (parent c = None → g c = c).
Proof.
  intros Hcs HF Hp Hnd Hfuel.
  destruct (enter_reliable F w HF Hp) as (w1 & He & Hp1 & _).
  destruct (body_2_run fuel w1 (committed (con w)) Hp1)
    as (w2 & fl & Hb & Hv2 & Hiss); [by rewrite Hcs..|].
  rewrite Hcs in Hv2, Hiss.
  destruct (transaction_returned F _ _ _ _ _ _
              (statements_only_body_2 fuel) He Hb)
    as (w3 & r3 & Ht & _ & _ & _ & Hok & _).
  destruct (HF (con w2)) as (_ & Hcommit & _).
  destruct (Hok Hcommit) as (-> & Hc3 & Hp3).
  exists w3, (reparent (issued fl)).
  split_and!; [done|done|by rewrite Hc3|].
  intros c Hc.
  destruct (reparent_spec (issued fl) c) as (Hi & Hvo & Hco & Hpar).
  assert (Hsame : parent (reparent (issued fl) c) = parent c →
                  reparent (issued fl) c = c).
  { destruct (reparent (issued fl) c), c. simpl in *. congruence. }
  assert (Hfree : (∀ r, top_level cs r → ¬ descendant cs r (id c)) →
                  reparent (issued fl) c = c).
  { intros Hno. apply Hsame.
    destruct Hpar as [[? _]|(k & Hk & _)]; [done|].
    apply Hiss in Hk as [? ?]. by destruct (Hno k). }
  split_and!; try done.
  - intros r Hr Hd.
    destruct Hpar as [[_ Hno]|(k & Hk & ->)].
    + destruct (Hno r). apply Hiss. by split.
    + apply Hiss in Hk as [Hk Hkd]. f_equal.
      by eapply descendant_root_unique.
  - intros Hroot. apply Hfree. intros r _.
    apply top_level_not_descendant; [done|]. by exists c.
Qed.

Lemma step_2_flattens_witness :
  ∃ w', step_2 no_faults 7 (Sample.start (Sample.db 2))
          = Some (w', Val tt) ∧
        pending (con w') = None ∧
        user_version (committed (con w')) = 3.
Proof.
  destruct (step_2_flattens no_faults 7 (Sample.start (Sample.db 2))
              Sample.forest eq_refl)
    as (w' & g & Hs & Hp & Hc & Hg).
  - intros c. repeat split.
  - reflexivity.
  - apply (bool_decide_unpack _). vm_compute. exact I.
  - simpl. lia.
  - exists w'. split_and!; [exact Hs|exact Hp|by rewrite Hc].
Defined.

(** C1 as stated fails in its second half.  In the forest
    [1 → 2 → 3 → 4], [1 → 5], comment 4 has no descendants, and the
    step changes its parent from 3 to 1. *)
Lemma deep_leaf_is_rewritten :
  ∃ w', step_2 no_faults 7 (Sample.start (Sample.db 2))
          = Some (w', Val tt) ∧
        Sample.row 4 (Some 3) ∈ Sample.forest ∧
        (∀ n, ¬ descendant Sample.forest 4 n) ∧
        (Sample.row 4 (Some 3) ∉ comments (committed (con w'))) ∧
        comments (committed (con w')) !! 3%nat = Some (Sample.row 4 (Some 1)).
Proof.
  eexists. split; [vm_compute; reflexivity|]. simpl. split_and!.
  - unfold Sample.forest. rewrite !elem_of_cons. eauto.
  - assert (Hleaf : ∀ n, ¬ child Sample.forest 4 n).
    { intros n Hc.
      apply (elem_of_select_children 4 n (Sample.db 2)) in Hc.
      by apply elem_of_nil in Hc. }
    intros n [Hc|(s & Hc & _)]%descendant_unfold; by eapply Hleaf.
  - rewrite !elem_of_cons, elem_of_nil. unfold Sample.row.
    intros [?|[?|[?|[?|[?|[?|[]]]]]]]; congruence.
  - reflexivity.
Qed.

End FlattenFacts.


(** ** More on the pool *)

Section PoolMore.
Import Pool Threads.

Lemma execute_when_held t sql args p h hd :
  pool_inv p → slots p !! t = Some (Some h) → heap p !! h = Some hd →
  execute t sql args p =
    ({| heap := <[h := Handle true (sent hd ++ [(sql_text sql, args)])]>
                  (heap p);
        slots := slots p |}, Val h).
Proof.
  intros [Hop _] Hs Hh. destruct (Hop _ _ Hs) as (hd' & Hh' & Ho).
  assert (hd' = hd) as -> by congruence.
  unfold execute, connection, handle_execute. rewrite Hs. simpl.
  by rewrite Hh, Ho.
Qed.

(** One call by another thread. *)
Lemma step_other c p t :
  pool_inv p → caller c ≠ t →
  slots (step c p) !! t = slots p !! t ∧
  ∀ h, slots p !! t = Some (Some h) → heap (step c p) !! h = heap p !! h.
Proof.
  intros Hinv Hne. destruct c as [t'|t'|t' sql args]; simpl in *.
  - split; [by rewrite lookup_insert_ne|]. intros h Hs.
    apply lookup_app_l. by eapply held_in_heap; [apply Hinv|].
  - unfold close. destruct (slots p !! t') as [[h'|]|] eqn:Ht'; simpl;
      try done.
    split; [by rewrite lookup_insert_ne|]. intros h Hs.
    unfold close_handle. destruct (heap p !! h') as [hd'|]; [|done].
    apply list_lookup_insert_ne. intros ->.
    apply Hne. by eapply (proj2 Hinv).
  - destruct (connection_spec t' p Hinv)
      as (h' & hd' & Hc & Hinv' & Hs' & Hh' & Ho' & Hcase).
    assert (Hslot : slots (connection t' p).1 !! t = slots p !! t).
    { destruct Hcase as [[_ ->]|(_ & _ & ->)]; [done|].
      simpl. by rewrite lookup_insert_ne. }
    assert (Hheap : ∀ h, slots p !! t = Some (Some h) →
              heap (connection t' p).1 !! h = heap p !! h).
    { intros h Hs. destruct Hcase as [[_ ->]|(_ & _ & ->)]; [done|].
      simpl. apply lookup_app_l. by eapply held_in_heap; [apply Hinv|]. }
    unfold execute. rewrite Hc. unfold handle_execute. rewrite Hh', Ho'.
    simpl. split; [done|]. intros h Hs.
    rewrite list_lookup_insert_ne; [by apply Hheap|].
    intros ->. apply Hne. eapply (proj2 Hinv'); [exact Hs'|].
    by rewrite Hslot.
Qed.

Lemma run_others cs p t :
  pool_inv p → Forall (λ c, caller c ≠ t) cs →
  slots (run cs p) !! t = slots p !! t ∧
  ∀ h, slots p !! t = Some (Some h) → heap (run cs p) !! h = heap p !! h.
Proof.
  intros Hinv Hcs. revert p Hinv.
  induction Hcs as [|c cs Hc _ IH]; intros p Hinv; simpl; [done|].
  destruct (step_other c p t Hinv Hc) as [Hs Hh].
  destruct (IH (step c p) (pool_inv_step _ _ Hinv)) as [Hs' Hh'].
  split; [congruence|]. intros h Hp.
  rewrite Hh' by congruence. by apply Hh.
Qed.

(** X1: thread isolation.  Whatever calls other threads make, connect,
    close or execute, the calling thread's slot and the connection it
    holds, with the statements recorded on it, stay as they were. *)
Theorem other_threads_leave_connection (cs cs' : list call) (t : thread) :
  Forall (λ c, caller c ≠ t) cs' →
  slots (run cs' (run cs empty)) !! t = slots (run cs empty) !! t ∧
  ∀ h, slots (run cs empty) !! t = Some (Some h) →
    heap (run cs' (run cs empty)) !! h = heap (run cs empty) !! h.
Proof.
  intros Hcs. apply run_others; [|done].
  apply pool_inv_run, pool_inv_empty.
Qed.

Lemma other_threads_leave_connection_witness :
  slots (run [Connect 1%nat; Execute 1%nat (Statement "x") []; Close 1%nat]
           (run [Connect 0%nat] empty)) !! 0%nat
    = slots (run [Connect 0%nat] empty) !! 0%nat.
Proof.
  refine (proj1 (other_threads_leave_connection [Connect 0%nat]
            [Connect 1%nat; Execute 1%nat (Statement "x") []; Close 1%nat]
            0%nat _)).
  repeat constructor; simpl; lia.
Defined.

(** X2: two executes of one thread run on the same connection, which
    records both statements in order, also when other threads have made
    calls in between: the lazy connect happens once. *)
Theorem executes_share_connection (cs cs' : list call) (t : thread)
    (s1 s2 : sql_arg) (a1 a2 : list value) :
  Forall (λ c, caller c ≠ t) cs' →
  ∃ h hd l,
    (execute t s1 a1 (run cs empty)).2 = Val h ∧
    (execute t s2 a2 (run cs' (execute t s1 a1 (run cs empty)).1)).2
      = Val h ∧
    heap (execute t s2 a2 (run cs' (execute t s1 a1 (run cs empty)).1)).1
      !! h = Some hd ∧
    is_open hd = true ∧
    sent hd = l ++ [(sql_text s1, a1); (sql_text s2, a2)].
Proof.
  intros Hcs.
  assert (Hp : pool_inv (run cs empty)) by apply pool_inv_run, pool_inv_empty.
  destruct (execute_spec t s1 a1 _ Hp)
    as (h & hd & Hr & Hinv1 & Hs1 & Hh1 & Ho1 & Hl1 & _).
  apply last_Some in Hl1 as [l Hl1].
  destruct (run_others cs' _ t Hinv1 Hcs) as [Hs2 Hh2].
  assert (Hinv2 := pool_inv_run cs' _ Hinv1).
  rewrite Hs1 in Hs2. specialize (Hh2 h Hs1). rewrite Hh1 in Hh2.
  rewrite (execute_when_held t s2 a2 _ h hd Hinv2 Hs2 Hh2). simpl.
  exists h, (Handle true (sent hd ++ [(sql_text s2, a2)])), l.
  split_and!; try done.
  - apply list_lookup_insert_eq. by eapply lookup_lt_Some.
  - simpl. rewrite Hl1. by rewrite <-(assoc_L (++)).
Qed.

Lemma executes_share_connection_witness :
  ∃ h, (execute 0%nat (Statement "a") [] (run [] empty)).2 = Val h ∧
       (execute 0%nat (Statement "b") []
          (run [Execute 1%nat (Statement "c") []]
             (execute 0%nat (Statement "a") [] (run [] empty)).1)).2
         = Val h.
Proof.
  destruct (executes_share_connection [] [Execute 1%nat (Statement "c") []]
              0%nat (Statement "a") (Statement "b") [] [])
    as (h & hd & l & H1 & H2 & _).
  - repeat constructor; simpl; lia.
  - exists h. split; assumption.
Defined.

(** X4: [connect] on a thread that already holds a connection puts a new
    connection in the slot and does not close the old one: the old
    connection stays open, with its record, and is in no slot any
    more. *)
Theorem connect_abandons_prior (cs : list call) (t : thread)
    (h : handle_id) :
  slots (run cs empty) !! t = Some (Some h) →
  slots (connect t (run cs empty)) !! t
    = Some (Some (length (heap (run cs empty)))) ∧
  h ≠ length (heap (run cs empty)) ∧
  (∃ hd, heap (connect t (run cs empty)) !! h = Some hd ∧
     heap (run cs empty) !! h = Some hd ∧ is_open hd = true) ∧
  ∀ t', slots (connect t (run cs empty)) !! t' ≠ Some (Some h).
Proof.
  intros Hs.
  assert (Hp : pool_inv (run cs empty)) by apply pool_inv_run, pool_inv_empty.
  destruct (proj1 Hp _ _ Hs) as (hd & Hh & Ho).
  assert (Hlt : (h < length (heap (run cs empty)))%nat)
    by by eapply lookup_lt_Some.
  split_and!.
  - simpl. by rewrite lookup_insert_eq.
  - lia.
  - exists hd. split_and!; [|done..]. simpl. by apply lookup_app_l_Some.
  - intros t'. simpl. rewrite lookup_insert. case_decide as Ht.
    + intros [= Heq]. lia.
    + intros Hs'. apply Ht. by eapply (proj2 Hp).
Qed.

Lemma connect_abandons_prior_witness :
  slots (connect 0%nat (run [Connect 0%nat] empty)) !! 0%nat
    = Some (Some 1%nat) ∧
  ∃ hd, heap (connect 0%nat (run [Connect 0%nat] empty)) !! 0%nat = Some hd ∧
        is_open hd = true.
Proof.
  destruct (connect_abandons_prior [Connect 0%nat] 0%nat 0%nat eq_refl)
    as (Hs & _ & (hd & Hh & _ & Ho) & _).
  split; [exact Hs|]. exists hd. split; assumption.
Defined.

End PoolMore.


(** ** More on transactions *)

Section TxnMore.
Import Engine Run Txn.

(** X5: a block that cannot be entered.  When the connection already has
    a transaction open, or the engine refuses the write lock, the [with]
    statement raises OperationalError without running the block and
    without calling [__exit__]: data and log are as before, but the
    isolation level, already switched by [__enter__], stays at
    "IMMEDIATE". *)
Theorem transaction_not_entered {A} (F : faults) (body : M A) (w : world) :
  is_Some (pending (con w)) ∨
    begin_raises F (with_isolation (Some "IMMEDIATE") (con w)) = true →
  transaction F body w =
    Some (World (with_isolation (Some "IMMEDIATE") (con w)) (logged w),
          Exc OperationalError).
Proof.
  intros Hrefused. unfold transaction, enter, begin_immediate. simpl.
  destruct (pending (con w)) as [d|] eqn:Hp; [done|].
  destruct Hrefused as [[d Hd]|Hb]; [done|]. by rewrite Hb.
Qed.

Lemma transaction_not_entered_witness :
  transaction no_faults (Adapter.set_user_version 9)
    (World (Connection None (Sample.db 2) (Some (Sample.db 2)) 0) [])
  = Some (World (Connection (Some "IMMEDIATE") (Sample.db 2)
                   (Some (Sample.db 2)) 0) [],
          Exc OperationalError).
Proof.
  exact (transaction_not_entered no_faults (Adapter.set_user_version 9)
           (World (Connection None (Sample.db 2) (Some (Sample.db 2)) 0) [])
           (or_introl (ex_intro _ (Sample.db 2) eq_refl))).
Defined.

(** [__exit__] returns only when commit or rollback went through, and
    then no transaction is open. *)
Lemma exit_returned F orig b w w' u :
  exit F orig b w = Some (w', Val u) → pending (con w') = None.
Proof.
  unfold exit, set_isolation_level, rollback, commit.
  destruct (pending (con w)) as [d|] eqn:Hp.
  - destruct b.
    + destruct (rollback_raises F (con w)).
      * destruct orig as [l|]; simpl; [done|]. rewrite Hp.
        by destruct (commit_raises F _).
      * destruct orig as [l|]; simpl; by intros [= <-].
    + destruct (commit_raises F (con w)).
      * destruct orig as [l|]; simpl; [done|]. rewrite Hp.
        by destruct (commit_raises F _).
      * destruct orig as [l|]; simpl; by intros [= <-].
  - assert (Hn : (if b then (con w, Val tt) else (con w, Val tt))
                 = (con w, Val tt)) by by destruct b.
    rewrite Hn. destruct orig as [l|]; simpl.
    + by intros [= <-].
    + rewrite Hp. by intros [= <-].
Qed.

(** X6: whatever the block does, a [with] statement that returns leaves
    the connection at the isolation level it had before and with no
    transaction open. *)
Theorem transaction_returns_clean {A} (F : faults) (body : M A)
    (w w' : world) (a : A) :
  transaction F body w = Some (w', Val a) →
  isolation_level (con w') = isolation_level (con w) ∧
  pending (con w') = None ∧
  pending (con w) = None.
Proof.
  intros [(e & _ & [=])|(w1 & w2 & r & r' & He & Hb & Hx & Hr)]%transaction_inv.
  destruct (enter_inv _ _ _ _ He) as (Hp & _ & _).
  destruct (exit_isolation _ _ _ _ _ _ Hx) as [Hi _].
  destruct r' as [u|e]; [|done].
  split_and!; [done| |done]. by eapply exit_returned.
Qed.

Lemma transaction_returns_clean_witness :
  ∃ w', transaction no_faults (Adapter.set_user_version 9)
          (Sample.start (Sample.db 2)) = Some (w', Val tt) ∧
        isolation_level (con w') = None ∧ pending (con w') = None.
Proof.
  eexists.
  assert (H : transaction no_faults (Adapter.set_user_version 9)
                (Sample.start (Sample.db 2)) = Some (_, Val tt))
    by reflexivity.
  split; [exact H|].
  destruct (transaction_returns_clean _ _ _ _ _ H) as (Hi & Hp & _).
  split; assumption.
Defined.

End TxnMore.


(** ** More on the migration steps *)

Section StepsMore.
Import Engine Run Txn Adapter Forest.

Implicit Types (w : world) (F : faults) (conf : config) (bf : list Z)
  (cs : list comment) (us : list (Z * Z)).

(** The world a block starts in. *)
Local Abbreviation entered w :=
  (World (Connection (Some "IMMEDIATE") (committed (con w))
            (Some (committed (con w))) (total_changes (con w)))
         (logged w)).

(** Every way a [with] statement over a block of statements can end:
    raised, and the file is as before; returned, and the file holds the
    block's working copy; or raised because commit or rollback was
    refused, with the working copy in the file all the same, committed
    by the assignment that restores the isolation level. *)
Lemma transaction_outcomes {A} F (body : M A) w w' r :
  statements_only body →
  transaction F body w = Some (w', r) →
  (raised r = true ∧ committed (con w') = committed (con w)) ∨
  (∃ w2 a, pending (con w) = None ∧ r = Val a ∧
     body (entered w) = Some (w2, Val a) ∧
     committed (con w') = view (con w2) ∧ pending (con w') = None ∧
     logged w' = logged w2 ∧
     isolation_level (con w') = isolation_level (con w) ∧
     total_changes (con w') = total_changes (con w2)) ∨
  (∃ w2 rb, pending (con w) = None ∧ r = Exc OperationalError ∧
     body (entered w) = Some (w2, rb) ∧
     committed (con w') = view (con w2) ∧
     (if raised rb then rollback_raises F (con w2)
      else commit_raises F (con w2)) = true).
Proof.
  intros Hso Ht.
  apply transaction_inv in Ht
    as [(e & He & ->)|(w1 & w2 & rb & r' & He & Hb & Hx & ->)].
  { left. by destruct (enter_exc _ _ _ _ He) as (_ & ? & _). }
  destruct (enter_inv _ _ _ _ He) as (Hp & _ & Hw1). subst w1.
  assert (Hin : is_Some (pending (con (entered w)))) by (simpl; eauto).
  destruct (Hso _ _ _ Hin Hb) as ([d2 Hp2] & _ & Hc2). simpl in Hc2.
  assert (Hv2 : view (con w2) = d2) by (unfold view; by rewrite Hp2).
  destruct (exit_isolation _ _ _ _ _ _ Hx) as [Hi Hl].
  destruct (exit_open _ _ _ _ _ _ _ Hp2 Hx) as (Htc & Hok & Hko).
  destruct (if raised rb then rollback_raises F (con w2)
            else commit_raises F (con w2)) eqn:Hf.
  - destruct (Hko eq_refl) as (-> & [(_ & _ & Hc3 & _)|(_ & Hc3 & _)]).
    + right. right. exists w2, rb. split_and!; [done|done|done| |done].
      congruence.
    + left. split; [done|]. congruence.
  - destruct (Hok eq_refl) as (-> & Hp3 & Hc3).
    destruct rb as [a|e]; simpl in *.
    + right. left. exists w2, a. split_and!; try done. congruence.
    + left. split; [done|]. congruence.
Qed.

(** *** The first block *)

Lemma body_0_run bf w d :
  pending (con w) = Some d →
  ∃ w', body_0 bf w = Some (w', Val tt) ∧
    view (con w') = with_version 1 (update_voters bf d).
Proof.
  intros Hp. eexists. split; [reflexivity|]. simpl.
  rewrite !view_store. unfold view. by rewrite Hp.
Qed.

(** *** The third block, on any table *)

Lemma body_2_inv fuel w w' r d :
  pending (con w) = Some d →
  body_2 fuel w = Some (w', r) →
  r = Val tt ∧ ∃ us,
    view (con w') =
      with_version 3 (with_comments (reparent us <$> comments d) d) ∧
    ∀ k n, (k, n) ∈ us ↔
      top_level (comments d) k ∧ descendant (comments d) k n.
Proof.
  intros Hp.
  assert (Hv : view (con w) = d) by (unfold view; by rewrite Hp).
  unfold body_2. unfold bind at 1, query. rewrite Hv.
  intros [(e & Hc & _)|(w1 & fl & Hc & H)]%bind_inv.
  { by destruct (collect_reads _ _ _ _ _ _ Hc) as (_ & ? & ?). }
  destruct (collect_reads _ _ _ _ _ _ Hc) as (-> & _).
  destruct (for_each_execute (issued fl)
              (λ u, update_parent u.1 u.2)
              (λ u, update_parent_rows u.2) w) as (w2 & Hr & Hv2 & _).
  unfold bind at 1 in H. rewrite rewrite_parents_issued, Hr in H.
  assert (Hcl := closing_run 3 w2). unfold closing in Hcl.
  rewrite Hcl in H. injection H as <- <-.
  split; [done|]. exists (issued fl). split.
  - simpl. rewrite view_store, Hv2, Hv. by rewrite foldl_update_parent.
  - intros k n. rewrite elem_of_issued.
    rewrite (collect_collects _ _ _ _ _ _ Hc k n), Hv.
    rewrite lookup_empty. simpl. rewrite elem_of_select_top. split.
    + intros [Hn|?]; [|done]. by apply not_elem_of_empty in Hn.
    + by right.
Qed.

(** What the rewrites make of the rows, when ids are distinct. *)
Lemma reparent_flattens cs us c :
  NoDup (id <$> cs) →
  (∀ k n, (k, n) ∈ us ↔ top_level cs k ∧ descendant cs k n) →
  c ∈ cs →
  (∀ r, top_level cs r → descendant cs r (id c) →
     parent (reparent us c) = Some r) ∧
  ((∀ r, top_level cs r → ¬ descendant cs r (id c)) → reparent us c = c) ∧
  (parent c = None → reparent us c = c).
Proof.
  intros Hnd Hus Hc.
  destruct (reparent_spec us c) as (Hi & Hvo & Hco & Hpar).
  assert (Hsame : parent (reparent us c) = parent c → reparent us c = c).
  { destruct (reparent us c), c. simpl in *. congruence. }
  assert (Hfree : (∀ r, top_level cs r → ¬ descendant cs r (id c)) →
                  reparent us c = c).
  { intros Hno. apply Hsame.
    destruct Hpar as [[? _]|(k & Hk & _)]; [done|].
    apply Hus in Hk as [? ?]. by destruct (Hno k). }
  split_and!; [|done|].
  - intros r Hr Hd. destruct Hpar as [[_ Hno]|(k & Hk & ->)].
    + destruct (Hno r). apply Hus. by split.
    + apply Hus in Hk as [Hk Hkd]. f_equal.
      by eapply descendant_root_unique.
  - intros Hroot. apply Hfree. intros r _.
    apply top_level_not_descendant; [done|]. by exists c.
Qed.

Lemma fmap_reparent_fields us cs :
  id <$> (reparent us <$> cs) = id <$> cs ∧
  voters <$> (reparent us <$> cs) = voters <$> cs ∧
  columns <$> (reparent us <$> cs) = columns <$> cs.
Proof.
  rewrite <-!list_fmap_compose.
  split_and!; apply list_fmap_ext; intros i c _; simpl;
    by destruct (reparent_spec us c) as (? & ? & ? & _).
Qed.

(** X7: the first step, for every engine, on a database that has the
    comments table.  It always finishes; on an engine that does not
    refuse, with no transaction open, it returns.  When it returns the
    file holds version 1 and every row carries the fresh bloom filter,
    with ids, parents, other columns and preferences as before, and the
    log has one more entry, the connection's running count of changed
    rows.  Whether it returns or raises, the file afterwards holds
    either what it held or the whole change with version 1, never a
    part; and when no commit is refused, a step that raises has left
    the file as it was. *)
Theorem step_0_resets_voters (F : faults) (bf : list Z) (w : world) :
  "comments" ∈ tables (committed (con w)) →
  ∃ w' r, step_0 F bf w = Some (w', r) ∧
    (reliable F → pending (con w) = None → r = Val tt) ∧
    (r = Val tt →
       committed (con w') =
         with_version 1 (update_voters bf (committed (con w))) ∧
       pending (con w') = None ∧
       (∀ c', c' ∈ comments (committed (con w')) → voters c' = bf) ∧
       id <$> comments (committed (con w'))
         = id <$> comments (committed (con w)) ∧
       parent <$> comments (committed (con w'))
         = parent <$> comments (committed (con w)) ∧
       columns <$> comments (committed (con w'))
         = columns <$> comments (committed (con w)) ∧
       preferences (committed (con w'))
         = preferences (committed (con w)) ∧
       logged w' =
         logged w ++
           [RowsChanged (total_changes (con w) +
                         length (comments (committed (con w))))]) ∧
    (committed (con w') = committed (con w) ∨
     committed (con w') =
       with_version 1 (update_voters bf (committed (con w)))) ∧
    ((∀ c, commit_raises F c = false) → r ≠ Val tt →
       committed (con w') = committed (con w)).
Proof.
  intros _.
  destruct (enter_total F w) as (w1 & [orig|e] & He).
  - destruct (enter_inv _ _ _ _ He) as (Hp & -> & Hw1).
    assert (Hb : body_0 bf w1 =
              Some (World
                      (Connection (Some "IMMEDIATE") (committed (con w))
                         (Some (with_version 1
                                  (update_voters bf (committed (con w)))))
                         (total_changes (con w) +
                          length (comments (committed (con w))) + 0))
                      (logged w ++
                         [RowsChanged
                            (total_changes (con w) +
                             length (comments (committed (con w))) + 0)]),
                    Val tt)) by (by subst w1).
    destruct (transaction_returned F _ _ _ _ _ _
                (statements_only_body_0 bf) He Hb)
      as (w3 & r3 & Ht & Hl & _ & _ & Hok & Hko).
    exists w3, r3. split; [exact Ht|]. simpl in *.
    destruct (commit_raises F _) eqn:Hf.
    + destruct (Hko eq_refl) as (-> & Hc).
      split_and!; [|done|exact Hc|].
      * intros HF _. destruct (HF (Connection (Some "IMMEDIATE")
          (committed (con w))
          (Some (with_version 1 (update_voters bf (committed (con w)))))
          (total_changes (con w) +
           length (comments (committed (con w))) + 0)))
          as (_ & Hno & _). congruence.
      * intros Hnever. rewrite Hnever in Hf. done.
    + destruct (Hok eq_refl) as (-> & Hc & Hp3).
      split_and!; [done| |by right|done]. intros _.
      rewrite Hc, Hl. unfold view. simpl.
      rewrite <-!list_fmap_compose, Nat.add_0_r.
      split_and!; try done.
      intros c' (c & -> & _)%list_elem_of_fmap. done.
  - exists w1, (Exc e). unfold step_0, transaction. rewrite He.
    destruct (enter_exc _ _ _ _ He) as (-> & Hc & _).
    split_and!; [done| |done|by left|done].
    intros HF Hp. destruct (enter_reliable F w HF Hp) as (? & ? & _).
    congruence.
Qed.

Lemma step_0_resets_voters_witness :
  ∃ w', step_0 no_faults [7] (Sample.start (Sample.db 0))
          = Some (w', Val tt) ∧
        user_version (committed (con w')) = 1 ∧
        voters <$> comments (committed (con w'))
          = [[7]; [7]; [7]; [7]; [7]; [7]].
Proof.
  destruct (step_0_resets_voters no_faults [7] (Sample.start (Sample.db 0)))
    as (w' & r & Hs & Hret & Hdone & _).
  - simpl. left.
  - assert (Hr : r = Val tt) by (apply Hret; [intros c; repeat split|];
                                 reflexivity).
    subst r. destruct (Hdone eq_refl) as (Hc & _).
    exists w'. split; [exact Hs|]. rewrite Hc. split; reflexivity.
Defined.

(** X8: the third step is all or nothing, on any comments table, for
    any engine and any fuel.  However it ends, the file afterwards
    holds either what it held, or version 3 and the rows rewritten by
    UPDATE statements that pair exactly each root with each of its
    descendants, never a part of that; it holds the latter when the
    step returns, and the former when the step raises and no commit is
    refused.  Either way ids, voters, other columns, preferences and
    the catalog are as before. *)
Theorem step_2_all_or_nothing (F : faults) (fuel : nat) (w w' : world)
    (r : result unit) :
  "comments" ∈ tables (committed (con w)) →
  step_2 F fuel w = Some (w', r) →
  (committed (con w') = committed (con w) ∨
   ∃ us, committed (con w') =
           with_version 3
             (with_comments (reparent us <$> comments (committed (con w)))
                (committed (con w))) ∧
     ∀ k n, (k, n) ∈ us ↔
       top_level (comments (committed (con w))) k ∧
       descendant (comments (committed (con w))) k n) ∧
  (r = Val tt →
     pending (con w') = None ∧
     user_version (committed (con w')) = 3 ∧
     ∃ us, comments (committed (con w'))
             = reparent us <$> comments (committed (con w)) ∧
       ∀ k n, (k, n) ∈ us ↔
         top_level (comments (committed (con w))) k ∧
         descendant (comments (committed (con w))) k n) ∧
  ((∀ c, commit_raises F c = false) → r ≠ Val tt →
     committed (con w') = committed (con w)) ∧
  id <$> comments (committed (con w'))
    = id <$> comments (committed (con w)) ∧
  voters <$> comments (committed (con w'))
    = voters <$> comments (committed (con w)) ∧
  columns <$> comments (committed (con w'))
    = columns <$> comments (committed (con w)) ∧
  preferences (committed (con w')) = preferences (committed (con w)) ∧
  tables (committed (con w')) = tables (committed (con w)) ∧
  triggers (committed (con w')) = triggers (committed (con w)).
Proof.
  intros _.
  intros [[Hr Hc]|[(w2 & [] & Hp & -> & Hb & Hc & Hp' & _)
                  |(w2 & rb & Hp & -> & Hb & Hc & Hf)]]
    %(transaction_outcomes _ _ _ _ _ (statements_only_body_2 fuel)).
  - rewrite Hc. split_and!; try done; [by left|]. intros ->. done.
  - destruct (body_2_inv fuel (entered w) _ _ (committed (con w))
                eq_refl Hb)
      as (_ & us & Hv & Hus).
    rewrite Hc, Hv. simpl.
    destruct (fmap_reparent_fields us (comments (committed (con w))))
      as (? & ? & ?).
    split_and!; try done.
    + right. by exists us.
    + intros _. split_and!; try done. by exists us.
  - destruct (body_2_inv fuel (entered w) _ _ (committed (con w))
                eq_refl Hb)
      as (-> & us & Hv & Hus).
    rewrite Hc, Hv. simpl in *.
    destruct (fmap_reparent_fields us (comments (committed (con w))))
      as (? & ? & ?).
    split_and!; try done.
    + right. by exists us.
    + intros Hnever. by rewrite Hnever in Hf.
Qed.

Lemma step_2_all_or_nothing_witness :
  ∃ w', step_2 no_faults 7 (Sample.start (Sample.db 2))
          = Some (w', Val tt) ∧
        voters <$> comments (committed (con w'))
          = voters <$> Sample.forest.
Proof.
  eexists.
  assert (H : step_2 no_faults 7 (Sample.start (Sample.db 2))
              = Some (_, Val tt)) by (vm_compute; reflexivity).
  split; [exact H|].
  assert (Ht : "comments" ∈ tables
                 (committed (con (Sample.start (Sample.db 2)))))
    by (simpl; left).
  destruct (step_2_all_or_nothing _ _ _ _ _ Ht H)
    as (_ & _ & _ & _ & Hvoters & _).
  exact Hvoters.
Defined.

(** *** The third step on tables with distinct ids *)

Lemma step_2_runs F fuel w :
  reliable F → pending (con w) = None →
  NoDup (id <$> comments (committed (con w))) →
  (length (comments (committed (con w))) < fuel)%nat →
  ∃ w' us, step_2 F fuel w = Some (w', Val tt) ∧
    pending (con w') = None ∧
    isolation_level (con w') = isolation_level (con w) ∧
    committed (con w') =
      with_version 3
        (with_comments (reparent us <$> comments (committed (con w)))
           (committed (con w))) ∧
    ∀ k n, (k, n) ∈ us ↔
      top_level (comments (committed (con w))) k ∧
      descendant (comments (committed (con w))) k n.
Proof.
  intros HF Hp Hnd Hfuel.
  destruct (enter_reliable F w HF Hp) as (w1 & He & Hp1 & _).
  destruct (body_2_run fuel w1 (committed (con w)) Hp1 Hnd Hfuel)
    as (w2 & fl & Hb & Hv2 & Hiss).
  destruct (transaction_returned F _ _ _ _ _ _
              (statements_only_body_2 fuel) He Hb)
    as (w3 & r3 & Ht & _ & Hi & _ & Hok & _).
  destruct (HF (con w2)) as (_ & Hcommit & _).
  destruct (Hok Hcommit) as (-> & Hc3 & Hp3).
  exists w3, (issued fl). split_and!; try done. by rewrite Hc3.
Qed.

Lemma reparent_root_iff cs us c :
  NoDup (id <$> cs) →
  (∀ k n, (k, n) ∈ us ↔ top_level cs k ∧ descendant cs k n) →
  c ∈ cs →
  parent (reparent us c) = None ↔ parent c = None.
Proof.
  intros Hnd Hus Hc. split.
  - destruct (reparent_spec us c) as (_ & _ & _ & Hpar).
    destruct Hpar as [[-> _]|(k & Hk & ->)]; [done|done].
  - intros Hroot.
    destruct (reparent_flattens cs us c Hnd Hus Hc) as (_ & _ & Hsame).
    by rewrite Hsame.
Qed.

Lemma select_top_fmap (g : comment → comment) cs :
  (∀ c, c ∈ cs →
     id (g c) = id c ∧ (parent (g c) = None ↔ parent c = None)) →
  id <$> filter (λ c, parent c = None) (g <$> cs)
    = id <$> filter (λ c, parent c = None) cs.
Proof.
  induction cs as [|c cs IH]; intros Hg; [done|].
  destruct (Hg c) as [Hi Hp]; [left|].
  assert (IH' := IH (λ c' Hc', Hg c' (list_elem_of_further _ _ _ Hc'))).
  rewrite fmap_cons, !filter_cons.
  destruct (decide (parent c = None)) as [Hc|Hc].
  - rewrite decide_True by by apply Hp. rewrite !fmap_cons. congruence.
  - rewrite decide_False by (by rewrite Hp). done.
Qed.

(** X9: the third step neither creates nor removes a root.  On a table
    with distinct ids it returns, and the roots of the committed table
    are the roots it found, in the same order. *)
Theorem step_2_keeps_roots (F : faults) (fuel : nat) (w : world) :
  reliable F → pending (con w) = None →
  NoDup (id <$> comments (committed (con w))) →
  (length (comments (committed (con w))) < fuel)%nat →
  ∃ w', step_2 F fuel w = Some (w', Val tt) ∧
    select_top (committed (con w')) = select_top (committed (con w)).
Proof.
  intros HF Hp Hnd Hfuel.
  destruct (step_2_runs F fuel w HF Hp Hnd Hfuel)
    as (w' & us & Hs & _ & _ & Hc & Hus).
  exists w'. split; [done|]. unfold select_top. rewrite Hc. simpl.
  apply select_top_fmap. intros c Hin. split.
  - by destruct (reparent_spec us c) as (? & _).
  - by eapply reparent_root_iff.
Qed.

Lemma step_2_keeps_roots_witness :
  ∃ w', step_2 no_faults 7 (Sample.start (Sample.db 2))
          = Some (w', Val tt) ∧
        select_top (committed (con w')) = [1; 6].
Proof.
  destruct (step_2_keeps_roots no_faults 7 (Sample.start (Sample.db 2)))
    as (w' & Hs & Ht).
  - intros c. repeat split.
  - reflexivity.
  - apply (bool_decide_unpack _). vm_compute. exact I.
  - simpl. lia.
  - exists w'. split; [exact Hs|exact Ht].
Defined.

(** X10: a forest that is already flat is left alone.  When every
    comment is a root or the direct child of a root, the third step
    returns and commits the rows exactly as they were, with version 3. *)
Theorem step_2_fixes_flat (F : faults) (fuel : nat) (w : world) :
  reliable F → pending (con w) = None →
  NoDup (id <$> comments (committed (con w))) →
  (length (comments (committed (con w))) < fuel)%nat →
  flat (comments (committed (con w))) →
  ∃ w', step_2 F fuel w = Some (w', Val tt) ∧
    committed (con w') = with_version 3 (committed (con w)).
Proof.
  intros HF Hp Hnd Hfuel Hflat.
  destruct (step_2_runs F fuel w HF Hp Hnd Hfuel)
    as (w' & us & Hs & _ & _ & Hc & Hus).
  exists w'. split; [done|]. rewrite Hc.
  assert (Hid : reparent us <$> comments (committed (con w))
                = comments (committed (con w))).
  { rewrite <-(list_fmap_id (comments (committed (con w)))) at 2.
    apply list_fmap_ext. intros i c Hi. simpl.
    apply list_elem_of_lookup_2 in Hi.
    destruct (reparent_flattens _ us c Hnd Hus Hi) as (Hdesc & _ & Hroot).
    destruct (Hflat c Hi) as [Hn|(r & Hr & Htop)]; [by apply Hroot|].
    assert (Hd : parent (reparent us c) = Some r).
    { apply Hdesc; [done|]. apply tc_once. by exists c. }
    destruct (reparent_spec us c) as (? & ? & ? & _).
    destruct (reparent us c), c. simpl in *. congruence. }
  rewrite Hid. by destruct (committed (con w)).
Qed.

Lemma flat_flat_sample : flat flat_sample.
Proof.
  assert (Htop : top_level flat_sample 1).
  { exists (Comment 1 None [] []). split; [left|done]. }
  intros c Hc. unfold flat_sample in Hc.
  repeat (apply elem_of_cons in Hc as [->|Hc]); simpl; eauto.
  by apply elem_of_nil in Hc.
Qed.

Lemma step_2_fixes_flat_witness :
  ∃ w', step_2 no_faults 7 (at_version_2 flat_sample)
          = Some (w', Val tt) ∧
        comments (committed (con w')) = flat_sample.
Proof.
  destruct (step_2_fixes_flat no_faults 7 (at_version_2 flat_sample))
    as (w' & Hs & Hc).
  - intros c. repeat split.
  - reflexivity.
  - apply (bool_decide_unpack _). vm_compute. exact I.
  - simpl. lia.
  - exact flat_flat_sample.
  - exists w'. split; [exact Hs|]. by rewrite Hc.
Defined.

(** X11: on a forest proper, where every comment is a root or hangs
    under one, the third step returns and leaves a flat forest: each
    committed row is a root or the direct child of a root. *)
Theorem step_2_result_is_flat (F : faults) (fuel : nat) (w : world) :
  reliable F → pending (con w) = None →
  NoDup (id <$> comments (committed (con w))) →
  (length (comments (committed (con w))) < fuel)%nat →
  rooted (comments (committed (con w))) →
  ∃ w', step_2 F fuel w = Some (w', Val tt) ∧
    flat (comments (committed (con w'))).
Proof.
  intros HF Hp Hnd Hfuel Hrooted.
  destruct (step_2_runs F fuel w HF Hp Hnd Hfuel)
    as (w' & us & Hs & _ & _ & Hc & Hus).
  exists w'. split; [done|]. rewrite Hc. simpl.
  intros c' (c & -> & Hin)%list_elem_of_fmap.
  destruct (reparent_flattens _ us c Hnd Hus Hin) as (Hdesc & _ & Hroot).
  destruct (Hrooted c Hin) as [Hn|(r & Htop & Hd)].
  - left. by rewrite Hroot.
  - right. exists r. split; [by apply Hdesc|].
    destruct Htop as (cr & Hcr & Hir & Hpr). exists cr.
    split_and!; [|done..].
    apply list_elem_of_fmap. exists cr. split; [|done].
    destruct (reparent_flattens _ us cr Hnd Hus Hcr) as (_ & _ & Hsame).
    by rewrite Hsame.
Qed.

Lemma rooted_chain_sample : rooted chain_sample.
Proof.
  assert (Htop : top_level chain_sample 1).
  { exists (Comment 1 None [] []). split; [left|done]. }
  assert (H12 : child chain_sample 1 2).
  { exists (Comment 2 (Some 1) [] []). split; [right; left|done]. }
  assert (H23 : child chain_sample 2 3).
  { exists (Comment 3 (Some 2) [] []). split; [right; right; left|done]. }
  intros c Hc. unfold chain_sample in Hc.
  repeat (apply elem_of_cons in Hc as [->|Hc]); simpl.
  - by left.
  - right. exists 1. split; [done|]. by apply tc_once.
  - right. exists 1. split; [done|]. eapply tc_l; [done|]. by apply tc_once.
  - by apply elem_of_nil in Hc.
Qed.

Lemma step_2_result_is_flat_witness :
  ∃ w', step_2 no_faults 7 (at_version_2 chain_sample)
          = Some (w', Val tt) ∧
        flat (comments (committed (con w'))).
Proof.
  apply (step_2_result_is_flat no_faults 7 (at_version_2 chain_sample)).
  - intros c. repeat split.
  - reflexivity.
  - apply (bool_decide_unpack _). vm_compute. exact I.
  - simpl. lia.
  - exact rooted_chain_sample.
Defined.

End StepsMore.


(** ** More on [migrate] and construction *)

Section MigrateMore.
Import Engine Run Txn Adapter Forest.

Implicit Types (w : world) (F : faults) (conf : config) (bf : list Z)
  (cs : list comment) (d : database).

Local Abbreviation ver w := (user_version (view (con w))).

(** The world a block starts in. *)
Local Abbreviation entered w :=
  (World (Connection (Some "IMMEDIATE") (committed (con w))
            (Some (committed (con w))) (total_changes (con w)))
         (logged w)).

(** *** The shape of a table decides the forest *)

Lemma child_links cs p n : child cs p n ↔ (n, Some p) ∈ links cs.
Proof.
  unfold child, links. rewrite list_elem_of_fmap. split.
  - intros (c & Hc & <- & <-). by exists c.
  - intros (c & [= -> Hp] & Hc). by exists c.
Qed.

Lemma top_level_links cs r : top_level cs r ↔ (r, None) ∈ links cs.
Proof.
  unfold top_level, links. rewrite list_elem_of_fmap. split.
  - intros (c & Hc & <- & <-). by exists c.
  - intros (c & [= -> Hp] & Hc). by exists c.
Qed.

Lemma ids_links cs : id <$> cs = (links cs).*1.
Proof. unfold links. by rewrite <-list_fmap_compose. Qed.

Lemma parents_links cs : parent <$> cs = (links cs).*2.
Proof. unfold links. by rewrite <-list_fmap_compose. Qed.

Lemma descendant_links cs cs' r n :
  links cs = links cs' → descendant cs r n → descendant cs' r n.
Proof.
  intros Hl. unfold descendant.
  induction 1 as [x y Hc|x y z Hc _ IH].
  - apply tc_once. apply child_links. rewrite <-Hl. by apply child_links.
  - eapply tc_l; [|exact IH].
    apply child_links. rewrite <-Hl. by apply child_links.
Qed.

Lemma links_update_voters bf d :
  links (comments (update_voters bf d)) = links (comments d).
Proof. unfold links. simpl. by rewrite <-list_fmap_compose. Qed.

(** *** The three steps on an engine that does not refuse *)

Lemma step_0_run F bf w :
  reliable F → pending (con w) = None →
  ∃ w', step_0 F bf w = Some (w', Val tt) ∧
    pending (con w') = None ∧
    isolation_level (con w') = isolation_level (con w) ∧
    committed (con w') =
      with_version 1 (update_voters bf (committed (con w))).
Proof.
  intros HF Hp.
  destruct (enter_reliable F w HF Hp) as (w1 & He & Hp1 & _).
  destruct (body_0_run bf w1 _ Hp1) as (w2 & Hb & Hv).
  destruct (transaction_returned F _ _ _ _ _ _
              (statements_only_body_0 bf) He Hb)
    as (w3 & r3 & Ht & _ & Hi & _ & Hok & _).
  destruct (HF (con w2)) as (_ & Hcommit & _).
  destruct (Hok Hcommit) as (-> & Hc3 & Hp3).
  exists w3. split_and!; try done. by rewrite Hc3.
Qed.

Lemma step_1_run F conf w :
  reliable F → pending (con w) = None →
  conf !! ("general", "session-key") = None ∨
    "preferences" ∈ tables (committed (con w)) →
  ∃ w', step_1 F conf w = Some (w', Val tt) ∧
    pending (con w') = None ∧
    isolation_level (con w') = isolation_level (con w) ∧
    committed (con w') = moved conf (committed (con w)).
Proof.
  intros HF Hp Hpt.
  destruct (enter_reliable F w HF Hp) as (w1 & He & Hp1 & _).
  destruct (body_1_run conf w1 _ Hp1 Hpt) as (w2 & Hb & Hp2).
  destruct (transaction_returned F _ _ _ _ _ _
              (statements_only_body_1 conf) He Hb)
    as (w3 & r3 & Ht & _ & Hi & _ & Hok & _).
  destruct (HF (con w2)) as (_ & Hcommit & _).
  destruct (Hok Hcommit) as (-> & Hc3 & Hp3).
  exists w3. split_and!; try done. rewrite Hc3. unfold view.
  by rewrite Hp2.
Qed.

Lemma ver_committed w :
  pending (con w) = None → ver w = user_version (committed (con w)).
Proof. intros Hp. unfold view. by rewrite Hp. Qed.

Lemma comments_moved conf d : comments (moved conf d) = comments d.
Proof. unfold moved. by destruct (conf !! _). Qed.

(** The blocks from the second on. *)
Lemma steps_run_1 F conf bf fuel w :
  reliable F → pending (con w) = None → ver w = 1 →
  conf !! ("general", "session-key") = None ∨
    "preferences" ∈ tables (committed (con w)) →
  NoDup (id <$> comments (committed (con w))) →
  (length (comments (committed (con w))) < fuel)%nat →
  ∃ w' us, steps F conf bf fuel w = Some (w', Val tt) ∧
    pending (con w') = None ∧
    isolation_level (con w') = isolation_level (con w) ∧
    committed (con w') =
      with_version 3
        (with_comments (reparent us <$> comments (committed (con w)))
           (moved conf (committed (con w)))) ∧
    ∀ k n, (k, n) ∈ us ↔
      top_level (comments (committed (con w))) k ∧
      descendant (comments (committed (con w))) k n.
Proof.
  intros HF Hp Hv Hpt Hnd Hfuel.
  destruct (step_1_run F conf w HF Hp Hpt)
    as (w1 & Hs1 & Hp1 & Hi1 & Hc1).
  assert (Hcs1 : comments (committed (con w1)) = comments (committed (con w)))
    by (rewrite Hc1; apply comments_moved).
  destruct (step_2_runs F fuel w1 HF Hp1) as (w2 & us & Hs2 & Hp2 & Hi2 & Hc2 & Hus);
    [by rewrite Hcs1..|].
  exists w2, us. rewrite Hcs1 in Hc2, Hus.
  split_and!; [|done|congruence|by rewrite Hc2, Hc1|done].
  unfold steps. unfold bind at 1, version at 1, query. rewrite Hv.
  rewrite bool_decide_eq_false_2 by done. unfold when at 1, bind at 1, ret.
  unfold bind at 1, version at 1, query. rewrite Hv.
  rewrite bool_decide_eq_true_2 by done. unfold when at 1, bind at 1.
  rewrite Hs1. unfold bind, version, query.
  rewrite (ver_committed w1 Hp1), Hc1.
  rewrite bool_decide_eq_true_2 by done. done.
Qed.

Lemma steps_run_2 F conf bf fuel w :
  reliable F → pending (con w) = None → ver w = 2 →
  NoDup (id <$> comments (committed (con w))) →
  (length (comments (committed (con w))) < fuel)%nat →
  ∃ w' us, steps F conf bf fuel w = Some (w', Val tt) ∧
    pending (con w') = None ∧
    isolation_level (con w') = isolation_level (con w) ∧
    committed (con w') =
      with_version 3
        (with_comments (reparent us <$> comments (committed (con w)))
           (committed (con w))) ∧
    ∀ k n, (k, n) ∈ us ↔
      top_level (comments (committed (con w))) k ∧
      descendant (comments (committed (con w))) k n.
Proof.
  intros HF Hp Hv Hnd Hfuel.
  destruct (step_2_runs F fuel w HF Hp Hnd Hfuel)
    as (w2 & us & Hs2 & Hp2 & Hi2 & Hc2 & Hus).
  exists w2, us. split_and!; try done.
  unfold steps, bind, version, query. rewrite Hv.
  rewrite bool_decide_eq_false_2 by done. simpl. rewrite Hv.
  rewrite bool_decide_eq_false_2 by done. simpl. rewrite Hv.
  by rewrite bool_decide_eq_true_2 by done.
Qed.

Lemma steps_after_0 F conf bf fuel w w1 :
  ver w = 0 → step_0 F bf w = Some (w1, Val tt) → ver w1 = 1 →
  steps F conf bf fuel w = steps F conf bf fuel w1.
Proof.
  intros Hv Hs Hv1. unfold steps.
  unfold bind at 1, version at 1, query. rewrite Hv.
  rewrite bool_decide_eq_true_2 by done. unfold when at 1, bind at 1.
  rewrite Hs. symmetry.
  unfold bind at 1, version at 1, query. rewrite Hv1.
  rewrite bool_decide_eq_false_2 by done. done.
Qed.

(** All pending blocks, from any version in 0..2. *)
Lemma steps_run F conf bf fuel w :
  reliable F → pending (con w) = None → 0 ≤ ver w ≤ 2 →
  (ver w ≤ 1 →
     conf !! ("general", "session-key") = None ∨
       "preferences" ∈ tables (committed (con w))) →
  NoDup (id <$> comments (committed (con w))) →
  (length (comments (committed (con w))) < fuel)%nat →
  ∃ w' cs1 us, steps F conf bf fuel w = Some (w', Val tt) ∧
    pending (con w') = None ∧
    isolation_level (con w') = isolation_level (con w) ∧
    committed (con w') =
      Database 3 (tables (committed (con w))) (triggers (committed (con w)))
        (reparent us <$> cs1)
        (if bool_decide (ver w ≤ 1)
         then preferences (moved conf (committed (con w)))
         else preferences (committed (con w))) ∧
    cs1 = (if bool_decide (ver w = 0)
           then comments (update_voters bf (committed (con w)))
           else comments (committed (con w))) ∧
    ∀ k n, (k, n) ∈ us ↔ top_level cs1 k ∧ descendant cs1 k n.
Proof.
  intros HF Hp Hv Hpt Hnd Hfuel.
  assert (ver w = 0 ∨ ver w = 1 ∨ ver w = 2) as [Hv0|[Hv1|Hv2]] by lia.
  - destruct (step_0_run F bf w HF Hp) as (w1 & Hs0 & Hp1 & Hi1 & Hc1).
    assert (Hver1 : ver w1 = 1) by (by rewrite (ver_committed w1 Hp1), Hc1).
    assert (Hids : id <$> comments (committed (con w1))
                   = id <$> comments (committed (con w))).
    { rewrite Hc1, !ids_links. simpl. f_equal.
      apply links_update_voters. }
    destruct (steps_run_1 F conf bf fuel w1 HF Hp1 Hver1)
      as (w' & us & Hs & Hp' & Hi' & Hc' & Hus).
    { rewrite Hc1. simpl. apply Hpt. lia. }
    { by rewrite Hids. }
    { rewrite <-(length_fmap id), Hids, length_fmap. done. }
    exists w', (comments (update_voters bf (committed (con w)))), us.
    rewrite (steps_after_0 F conf bf fuel w w1 Hv0 Hs0 Hver1).
    rewrite Hc1 in Hc', Hus. simpl in Hus.
    rewrite Hv0. rewrite !bool_decide_eq_true_2 by done.
    split_and!; [done|done|congruence| |done|done].
    rewrite Hc'. unfold moved. simpl.
    by destruct (conf !! ("general", "session-key")).
  - assert (Hpt1 := Hpt ltac:(lia)).
    destruct (steps_run_1 F conf bf fuel w HF Hp Hv1 Hpt1 Hnd Hfuel)
      as (w' & us & Hs & Hp' & Hi' & Hc' & Hus).
    exists w', (comments (committed (con w))), us.
    rewrite Hv1. rewrite bool_decide_eq_true_2 by done.
    rewrite bool_decide_eq_false_2 by done.
    split_and!; try done.
    rewrite Hc'. unfold moved. simpl.
    by destruct (conf !! ("general", "session-key")).
  - destruct (steps_run_2 F conf bf fuel w HF Hp Hv2 Hnd Hfuel)
      as (w' & us & Hs & Hp' & Hi' & Hc' & Hus).
    exists w', (comments (committed (con w))), us.
    rewrite Hv2. rewrite !bool_decide_eq_false_2 by lia.
    split_and!; try done.
Qed.

(** X12: a migration that starts runs to the end.  From any version in
    0..2 and for any target above it, on an engine that does not refuse,
    a database that has the comments table, with distinct ids, and has
    the preferences table if the second block is still to run with the
    option defined, [migrate] returns with version MAX_VERSION
    committed, no transaction open and the isolation level as before.
    Ids and other columns are kept; the voters are the fresh bloom
    filter when the start was version 0 and untouched otherwise; the
    preferences went through the second block when the start was
    version 0 or 1; and every comment that hung under a root of the
    table found has that root as its parent. *)
Theorem migrate_completes (F : faults) (conf : config) (bf : list Z)
    (fuel : nat) (to : Z) (w : world) :
  reliable F → pending (con w) = None →
  0 ≤ ver w ≤ 2 → ver w < to →
  "comments" ∈ tables (committed (con w)) →
  (ver w ≤ 1 →
     conf !! ("general", "session-key") = None ∨
       "preferences" ∈ tables (committed (con w))) →
  NoDup (id <$> comments (committed (con w))) →
  (length (comments (committed (con w))) < fuel)%nat →
  ∃ w', migrate F conf bf fuel to w = Some (w', Val tt) ∧
    user_version (committed (con w')) = MAX_VERSION ∧
    pending (con w') = None ∧
    isolation_level (con w') = isolation_level (con w) ∧
    id <$> comments (committed (con w'))
      = id <$> comments (committed (con w)) ∧
    columns <$> comments (committed (con w'))
      = columns <$> comments (committed (con w)) ∧
    (ver w = 0 →
       ∀ c', c' ∈ comments (committed (con w')) → voters c' = bf) ∧
    (1 ≤ ver w →
       voters <$> comments (committed (con w'))
         = voters <$> comments (committed (con w))) ∧
    (ver w ≤ 1 →
       preferences (committed (con w'))
         = preferences (moved conf (committed (con w)))) ∧
    (ver w = 2 →
       preferences (committed (con w')) = preferences (committed (con w))) ∧
    (∀ c' r, c' ∈ comments (committed (con w')) →
       top_level (comments (committed (con w))) r →
       descendant (comments (committed (con w))) r (id c') →
       parent c' = Some r).
Proof.
  intros HF Hp Hv Hto _ Hpt Hnd Hfuel.
  set (w0 := World (con w) (logged w ++ [MigrateFromTo (ver w) to])).
  destruct (steps_run F conf bf fuel w0 HF Hp Hv Hpt Hnd Hfuel)
    as (w' & cs1 & us & Hs & Hp' & Hi' & Hc' & Hcs1 & Hus).
  simpl in Hc', Hcs1, Hi'.
  exists w'. rewrite migrate_unfold.
  rewrite bool_decide_eq_false_2 by lia. fold w0.
  assert (Hl : links cs1 = links (comments (committed (con w)))).
  { rewrite Hcs1. case_bool_decide; [apply links_update_voters|done]. }
  assert (Hnd1 : NoDup (id <$> cs1)) by (by rewrite ids_links, Hl, <-ids_links).
  destruct (fmap_reparent_fields us cs1) as (Hfi & Hfv & Hfc).
  split_and!; try done.
  - by rewrite Hc'.
  - rewrite Hc'. simpl. by rewrite Hfi, !ids_links, Hl.
  - rewrite Hc'. simpl. rewrite Hfc, Hcs1.
    case_bool_decide; [|done]. simpl. by rewrite <-list_fmap_compose.
  - intros Hv0 c'. rewrite Hc'. simpl.
    intros (c & -> & Hin)%list_elem_of_fmap.
    destruct (reparent_spec us c) as (_ & -> & _).
    rewrite Hcs1, bool_decide_eq_true_2 in Hin by done. simpl in Hin.
    by apply list_elem_of_fmap in Hin as (c0 & -> & _).
  - intros Hv1. rewrite Hc'. simpl. rewrite Hfv, Hcs1.
    by rewrite bool_decide_eq_false_2 by lia.
  - intros Hv1. rewrite Hc'. simpl. by rewrite bool_decide_eq_true_2.
  - intros Hv2. rewrite Hc'. simpl. by rewrite bool_decide_eq_false_2 by lia.
  - intros c' r. rewrite Hc'. simpl.
    intros (c & -> & Hin)%list_elem_of_fmap Htop Hd.
    destruct (reparent_spec us c) as (Hid & _).
    destruct (reparent_flattens cs1 us c Hnd1 Hus Hin) as (Hdesc & _).
    apply Hdesc.
    + apply top_level_links. rewrite Hl. by apply top_level_links.
    + rewrite <-Hid. by eapply descendant_links.
Qed.

Lemma migrate_completes_witness :
  ∃ w', migrate no_faults ∅ [7] 7 1 (Sample.start (Sample.db 0))
          = Some (w', Val tt) ∧
        user_version (committed (con w')) = 3.
Proof.
  destruct (migrate_completes no_faults ∅ [7] 7 1
              (Sample.start (Sample.db 0)))
    as (w' & Hm & Hv & _).
  - intros c. repeat split.
  - reflexivity.
  - simpl. lia.
  - simpl. lia.
  - simpl. left.
  - intros _. by left.
  - apply (bool_decide_unpack _). vm_compute. exact I.
  - simpl. lia.
  - exists w'. split; [exact Hm|exact Hv].
Defined.

(** *** What a migration keeps, however it ends *)

Lemma kept_refl v d : kept v d d.
Proof. by repeat split. Qed.

Lemma kept_trans v v' d d' d'' :
  v ≤ v' → kept v d d' → kept v' d' d'' → kept v d d''.
Proof.
  intros Hv (H1 & H2 & H3 & H4 & H5 & H6) (K1 & K2 & K3 & K4 & K5 & K6).
  split_and!; try congruence.
  - intros ?. rewrite K5 by lia. by apply H5.
  - intros ?. rewrite K6 by lia. by apply H6.
Qed.

Lemma kept_update_voters bf d :
  user_version d = 0 →
  kept (user_version d) d (with_version 1 (update_voters bf d)).
Proof.
  intros Hv. split_and!; simpl; try done; try (intros ?; lia);
    by rewrite <-list_fmap_compose.
Qed.

Lemma kept_moved conf d :
  user_version d = 1 → kept (user_version d) d (moved conf d).
Proof.
  intros Hv. unfold moved.
  destruct (conf !! _); split_and!; simpl; try done; intros ?; lia.
Qed.

Lemma kept_reparent v us d :
  kept v d (with_version 3 (with_comments (reparent us <$> comments d) d)).
Proof.
  destruct (fmap_reparent_fields us (comments d)) as (? & ? & ?).
  by split_and!.
Qed.

(** One guarded block, for any engine: what it keeps, and in what state
    it leaves the connection when it returns. *)
Lemma guarded_keeps F (n : Z) (body : M unit) w w' r :
  statements_only body →
  (∀ w2 rb, body (entered w) = Some (w2, rb) →
     user_version (committed (con w)) = n →
     kept n (committed (con w)) (view (con w2)) ∧
     n ≤ user_version (view (con w2))) →
  when (bool_decide (ver w = n)) (transaction F body) w = Some (w', r) →
  kept (ver w) (committed (con w)) (committed (con w')) ∧
  (r = Val tt →
     isolation_level (con w') = isolation_level (con w) ∧
     pending (con w') = pending (con w) ∧ ver w ≤ ver w').
Proof.
  intros Hso Hbody. unfold when. case_bool_decide as Hv.
  2:{ intros [= <- <-]. split; [apply kept_refl|]. intros _.
      split_and!; [done..|lia]. }
  intros [[Hr Hc]|[(w2 & [] & Hp & -> & Hb & Hc & Hp' & _ & Hi & _)
                  |(w2 & rb & Hp & -> & Hb & Hc & _)]]
    %(transaction_outcomes _ _ _ _ _ Hso).
  - rewrite Hc. split; [apply kept_refl|]. by intros ->.
  - rewrite (ver_committed w Hp) in Hv.
    destruct (Hbody w2 _ Hb Hv) as [Hk Hle].
    rewrite (ver_committed w Hp), (ver_committed w' Hp'), Hc, Hv.
    split; [done|]. intros _. split_and!; [done|congruence|done].
  - rewrite (ver_committed w Hp) in Hv.
    destruct (Hbody w2 _ Hb Hv) as [Hk _].
    rewrite (ver_committed w Hp), Hc, Hv. by split.
Qed.

Lemma steps_keep F conf bf fuel w w' r :
  steps F conf bf fuel w = Some (w', r) →
  kept (ver w) (committed (con w)) (committed (con w')) ∧
  (r = Val tt →
     isolation_level (con w') = isolation_level (con w) ∧
     pending (con w') = pending (con w)).
Proof.
  assert (H0 : ∀ w w' r,
    when (bool_decide (ver w = 0)) (step_0 F bf) w = Some (w', r) →
    kept (ver w) (committed (con w)) (committed (con w')) ∧
    (r = Val tt →
       isolation_level (con w') = isolation_level (con w) ∧
       pending (con w') = pending (con w) ∧ ver w ≤ ver w')).
  { intros w0 w0' r0. apply guarded_keeps; [apply statements_only_body_0|].
    intros w2 rb Hb Hv.
    destruct (body_0_run bf (entered w0) (committed (con w0)) eq_refl)
      as (w2' & Hb' & Hv2).
    rewrite Hb in Hb'. injection Hb' as <- _. rewrite Hv2. split.
    - rewrite <-Hv. by apply kept_update_voters.
    - simpl. lia. }
  assert (H1 : ∀ w w' r,
    when (bool_decide (ver w = 1)) (step_1 F conf) w = Some (w', r) →
    kept (ver w) (committed (con w)) (committed (con w')) ∧
    (r = Val tt →
       isolation_level (con w') = isolation_level (con w) ∧
       pending (con w') = pending (con w) ∧ ver w ≤ ver w')).
  { intros w0 w0' r0. apply guarded_keeps; [apply statements_only_body_1|].
    intros w2 rb Hb Hv.
    destruct (decide (conf !! ("general", "session-key") = None ∨
                      "preferences" ∈ tables (committed (con w0))))
      as [Hcan|Hcannot].
    - destruct (body_1_run conf (entered w0) (committed (con w0)) eq_refl
                  Hcan) as (w2' & Hb' & Hp2).
      rewrite Hb in Hb'. injection Hb' as <- _.
      unfold view. rewrite Hp2. simpl. split; [|lia].
      rewrite <-Hv. by apply kept_moved.
    - destruct (conf !! ("general", "session-key")) as [v|] eqn:Hopt;
        [|by destruct Hcannot; left].
      assert (Hno : "preferences" ∉ tables (committed (con w0)))
        by (intros ?; apply Hcannot; by right).
      rewrite (body_1_refused conf (entered w0) _ v eq_refl Hopt Hno)
        in Hb.
      injection Hb as <- _. unfold view. simpl.
      split; [apply kept_refl|lia]. }
  assert (H2 : ∀ w w' r,
    when (bool_decide (ver w = 2)) (step_2 F fuel) w = Some (w', r) →
    kept (ver w) (committed (con w)) (committed (con w')) ∧
    (r = Val tt →
       isolation_level (con w') = isolation_level (con w) ∧
       pending (con w') = pending (con w) ∧ ver w ≤ ver w')).
  { intros w0 w0' r0. apply guarded_keeps; [apply statements_only_body_2|].
    intros w2 rb Hb Hv.
    destruct (body_2_inv fuel (entered w0) _ _ (committed (con w0))
                eq_refl Hb) as (_ & us & -> & _).
    split; [apply kept_reparent|simpl; lia]. }
  unfold steps. unfold bind at 1, version at 1, query.
  intros [(e & Ha & ->)|(w1 & [] & Ha & H)]%bind_inv.
  { destruct (H0 _ _ _ Ha) as [Hk _]. by split. }
  destruct (H0 _ _ _ Ha) as [Hk0 Hc0].
  destruct (Hc0 eq_refl) as (Hi0 & Hp0 & Hv0).
  unfold bind at 1, version at 1, query in H.
  apply bind_inv in H as [(e & Hb & ->)|(w2 & [] & Hb & H)].
  { destruct (H1 _ _ _ Hb) as [Hk1 _]. split; [|done].
    by eapply kept_trans. }
  destruct (H1 _ _ _ Hb) as [Hk1 Hc1].
  destruct (Hc1 eq_refl) as (Hi1 & Hp1 & Hv1).
  unfold bind, version, query in H.
  destruct (H2 _ _ _ H) as [Hk2 Hc2].
  split.
  - eapply kept_trans; [exact Hv0|exact Hk0|].
    eapply kept_trans; [exact Hv1|exact Hk1|exact Hk2].
  - intros Hr. destruct (Hc2 Hr) as (Hi2 & Hp2 & _). split; congruence.
Qed.

(** X13: a migration resumes where the database stands, for any engine
    and however the call ends.  Ids, the other columns and the catalog
    are never touched; a database found at version 1 or later keeps its
    voters, and one found at version 2 or later keeps its preferences. *)
Theorem migrate_keeps (F : faults) (conf : config) (bf : list Z)
    (fuel : nat) (to : Z) (w w' : world) (r : result unit) :
  migrate F conf bf fuel to w = Some (w', r) →
  id <$> comments (committed (con w'))
    = id <$> comments (committed (con w)) ∧
  columns <$> comments (committed (con w'))
    = columns <$> comments (committed (con w)) ∧
  tables (committed (con w')) = tables (committed (con w)) ∧
  triggers (committed (con w')) = triggers (committed (con w)) ∧
  (1 ≤ ver w →
     voters <$> comments (committed (con w'))
       = voters <$> comments (committed (con w))) ∧
  (2 ≤ ver w →
     preferences (committed (con w')) = preferences (committed (con w))).
Proof.
  rewrite migrate_unfold. case_bool_decide.
  - by intros [= <- <-].
  - intros [Hk _]%steps_keep. exact Hk.
Qed.

Lemma migrate_keeps_witness :
  ∃ w', migrate no_faults Sample.session_conf [7] 7 3
          (Sample.start (Sample.db 1)) = Some (w', Val tt) ∧
        voters <$> comments (committed (con w'))
          = voters <$> Sample.forest.
Proof.
  eexists.
  assert (H : migrate no_faults Sample.session_conf [7] 7 3
                (Sample.start (Sample.db 1)) = Some (_, Val tt))
    by (vm_compute; reflexivity).
  split; [exact H|].
  destruct (migrate_keeps _ _ _ _ _ _ _ _ H) as (_ & _ & _ & _ & Hv & _).
  apply Hv. simpl. lia.
Defined.

(** X14: a [migrate] that returns leaves the connection as it found it:
    the same isolation level, and a transaction open only if one was
    open before. *)
Theorem migrate_returns_clean (F : faults) (conf : config) (bf : list Z)
    (fuel : nat) (to : Z) (w w' : world) :
  migrate F conf bf fuel to w = Some (w', Val tt) →
  isolation_level (con w') = isolation_level (con w) ∧
  pending (con w') = pending (con w).
Proof.
  rewrite migrate_unfold. case_bool_decide.
  - by intros [= <-].
  - intros [_ Hc]%steps_keep. by apply Hc.
Qed.

Lemma migrate_returns_clean_witness :
  ∃ w', migrate no_faults ∅ [7] 7 3 (Sample.start (Sample.db 0))
          = Some (w', Val tt) ∧
        isolation_level (con w') = None ∧ pending (con w') = None.
Proof.
  eexists.
  assert (H : migrate no_faults ∅ [7] 7 3 (Sample.start (Sample.db 0))
              = Some (_, Val tt)) by (vm_compute; reflexivity).
  split; [exact H|].
  exact (migrate_returns_clean _ _ _ _ _ _ _ H).
Defined.

(** *** Construction *)

Lemma execute_autocommit f rows w :
  pending (con w) = None →
  ∃ w', execute f rows w = Some (w', Val tt) ∧
    pending (con w') = None ∧
    committed (con w') = f (committed (con w)) ∧
    logged w' = logged w.
Proof.
  intros Hp. eexists. split; [reflexivity|]. simpl.
  unfold store, view. rewrite Hp. done.
Qed.

Lemma attempt_autocommit f w d :
  pending (con w) = None →
  f (committed (con w)) = Some d →
  ∃ w', attempt f (λ _, O) w = Some (w', Val tt) ∧
    pending (con w') = None ∧
    committed (con w') = d ∧
    logged w' = logged w.
Proof.
  intros Hp Hf. unfold attempt.
  assert (Hv : view (con w) = committed (con w))
    by (unfold view; by rewrite Hp).
  rewrite Hv, Hf. eexists. split; [reflexivity|]. simpl.
  unfold store. rewrite Hp. done.
Qed.

Lemma store_view c : store (view c) 0 c = c.
Proof.
  destruct c as [i cm [p|] n]; unfold store, view; simpl;
    by rewrite Nat.add_0_r.
Qed.

(** X15: what construction achieves.  Once the collaborators'
    constructors have returned and left the comments table, and the
    preferences table if the second block is still to run with the
    option defined, then on an engine that does not refuse, with no
    transaction open, a non-negative version and distinct ids, the
    constructor returns; the file then holds a version of at least
    MAX_VERSION and the trigger, no transaction is open, and the rows
    have the ids the collaborators left. *)
Theorem init_brings_up_to_date (F : faults) (conf : config) (bf : list Z)
    (collaborators : M unit) (fuel : nat) (w w1 : world) :
  collaborators w = Some (w1, Val tt) →
  reliable F → pending (con w1) = None → 0 ≤ ver w1 →
  "comments" ∈ tables (committed (con w1)) →
  (ver w1 ≤ 1 →
     conf !! ("general", "session-key") = None ∨
       "preferences" ∈ tables (committed (con w1))) →
  NoDup (id <$> comments (committed (con w1))) →
  (length (comments (committed (con w1))) < fuel)%nat →
  ∃ w', init F conf bf collaborators fuel w = Some (w', Val tt) ∧
    MAX_VERSION ≤ user_version (committed (con w')) ∧
    pending (con w') = None ∧
    "remove_stale_threads" ∈ triggers (committed (con w')) ∧
    id <$> comments (committed (con w'))
      = id <$> comments (committed (con w1)).
Proof.
  intros Hc HF Hp Hv Hct Hpt Hnd Hfuel. unfold MAX_VERSION.
  assert (Hmid : ∃ w2,
    (match select_core_table (view (con w)) with
     | None => set_user_version 3
     | Some _ => migrate F conf bf fuel 3
     end) w1 = Some (w2, Val tt) ∧
    pending (con w2) = None ∧
    3 ≤ user_version (committed (con w2)) ∧
    tables (committed (con w2)) = tables (committed (con w1)) ∧
    id <$> comments (committed (con w2))
      = id <$> comments (committed (con w1))).
  { destruct (select_core_table (view (con w))) as [n|].
    - rewrite migrate_unfold. case_bool_decide as Hge.
      + exists w1. split_and!; try done.
        rewrite <-(ver_committed w1 Hp). lia.
      + destruct (steps_run F conf bf fuel
                    (World (con w1)
                       (logged w1 ++ [MigrateFromTo (ver w1) 3])) HF Hp)
          as (w2 & cs1 & us & Hs & Hp2 & _ & Hc2 & Hcs1 & _);
          [simpl; lia|done..|].
        exists w2. simpl in *. split_and!; try done.
        * rewrite Hc2. simpl. lia.
        * by rewrite Hc2.
        * rewrite Hc2. simpl.
          destruct (fmap_reparent_fields us cs1) as (-> & _).
          rewrite Hcs1. case_bool_decide; [|done].
          simpl. by rewrite <-list_fmap_compose.
    - destruct (execute_autocommit (with_version 3) (λ _, O) w1 Hp)
        as (w2 & He & Hp2 & Hc2 & _).
      exists w2. split_and!; try done; by rewrite Hc2. }
  destruct Hmid as (w2 & Hm & Hp2 & Hv2 & Hts & Hids).
  destruct (create_trigger_Some (committed (con w2))) as [d3 Hd3].
  { right. by rewrite Hts. }
  destruct (attempt_autocommit create_trigger w2 d3 Hp2 Hd3)
    as (w3 & He & Hp3 & Hc3 & _).
  exists w3.
  destruct (create_trigger_keeps _ _ Hd3) as (Hkv & _ & Hkc & _ & Hkt).
  split_and!; try done.
  - unfold init, MAX_VERSION. unfold bind at 1, query.
    unfold bind at 1. rewrite Hc. unfold bind. by rewrite Hm.
  - rewrite Hc3, Hkv. done.
  - by rewrite Hc3.
  - by rewrite Hc3, Hkc.
Qed.

Lemma init_brings_up_to_date_witness :
  ∃ w', init no_faults ∅ [7] (ret tt) 7 (Sample.start (Sample.db 0))
          = Some (w', Val tt) ∧
        3 ≤ user_version (committed (con w')) ∧
        "remove_stale_threads" ∈ triggers (committed (con w')).
Proof.
  destruct (init_brings_up_to_date no_faults ∅ [7] (ret tt) 7
              (Sample.start (Sample.db 0)) (Sample.start (Sample.db 0))
              eq_refl)
    as (w' & Hi & Hv & _ & Ht & _).
  - intros c. repeat split.
  - reflexivity.
  - simpl. lia.
  - simpl. left.
  - intros _. by left.
  - apply (bool_decide_unpack _). vm_compute. exact I.
  - simpl. lia.
  - exists w'. split_and!; [exact Hi|exact Hv|exact Ht].
Defined.

(** X16: constructing the adapter again on a database that is up to date
    changes nothing.  When one of the three tables exists, the version
    read is MAX_VERSION or more, the trigger is installed and the
    collaborators' constructors leave everything as it is, the
    constructor returns with connection, database and log exactly as
    they were, for any engine. *)
Theorem init_again_changes_nothing (F : faults) (conf : config)
    (bf : list Z) (collaborators : M unit) (fuel : nat) (w : world) :
  collaborators w = Some (w, Val tt) →
  (∃ n, n ∈ core_tables ∧ n ∈ tables (view (con w))) →
  MAX_VERSION ≤ ver w →
  "remove_stale_threads" ∈ triggers (view (con w)) →
  init F conf bf collaborators fuel w = Some (w, Val tt).
Proof.
  intros Hc [n Hrv]%select_core_table_Some Hv Ht.
  unfold init. unfold bind at 1, query. rewrite Hrv.
  unfold bind at 1. rewrite Hc. unfold bind at 1.
  rewrite migrate_unfold. rewrite bool_decide_eq_true_2 by lia.
  unfold attempt, create_trigger.
  rewrite bool_decide_eq_true_2 by done.
  rewrite store_view. by destruct w.
Qed.

Lemma init_again_changes_nothing_witness :
  init no_faults ∅ [7] (ret tt) 7
    (Sample.start (Database 3 ["comments"] ["remove_stale_threads"]
                     Sample.forest []))
  = Some (Sample.start (Database 3 ["comments"] ["remove_stale_threads"]
                          Sample.forest []), Val tt).
Proof.
  apply (init_again_changes_nothing no_faults ∅ [7] (ret tt) 7).
  - reflexivity.
  - exists "comments". split; [|left].
    unfold core_tables. right. left.
  - unfold MAX_VERSION. simpl. lia.
  - left.
Defined.

End MigrateMore.


(** ** Counting the rewrites, and a commit that fails *)

Section CountingMore.
Import Engine Run Txn Adapter Forest.

Implicit Types (w : world) (F : faults) (cs : list comment)
  (fl : gmap Z (gset Z)).

Lemma NoDup_issued fl : NoDup (issued fl).
Proof.
  unfold issued. apply NoDup_bind.
  - intros k1 k2 [k n] _ _ (n1 & [= -> _] & _)%list_elem_of_fmap
      (n2 & [= -> _] & _)%list_elem_of_fmap. done.
  - intros k _. apply NoDup_fmap_2; [apply _|apply NoDup_elements].
  - apply NoDup_fst_map_to_list.
Qed.

Lemma count_id cs n :
  NoDup (id <$> cs) → n ∈ id <$> cs →
  length (filter (λ c, id c = n) cs) = 1%nat.
Proof.
  induction cs as [|c cs IH]; simpl; [by intros _ ?%elem_of_nil|].
  rewrite NoDup_cons. intros [Hc Hnd] Hn. rewrite filter_cons.
  destruct (decide (id c = n)) as [<-|Hne].
  - simpl. f_equal.
    destruct (filter (λ c', id c' = id c) cs) as [|c' l] eqn:Hf; [done|].
    assert (Hin : c' ∈ filter (λ c', id c' = id c) cs)
      by (rewrite Hf; left).
    apply list_elem_of_filter in Hin as [Heq Hc'].
    destruct Hc. rewrite <-Heq. by apply list_elem_of_fmap_2.
  - apply IH; [done|]. by apply elem_of_cons in Hn as [?|?].
Qed.

Lemma total_changes_store d n c :
  total_changes (store d n c) = (total_changes c + n)%nat.
Proof. unfold store. by destruct (pending c). Qed.

Lemma ids_update_parent k n d :
  id <$> comments (update_parent k n d) = id <$> comments d.
Proof.
  simpl. rewrite <-list_fmap_compose. apply list_fmap_ext.
  intros i c _. simpl. by case_bool_decide.
Qed.

(** On a table with distinct ids every UPDATE that names a row changes
    exactly one row. *)
Lemma rewrites_count (us : list (Z * Z)) w :
  NoDup (id <$> comments (view (con w))) →
  (∀ u, u ∈ us → u.2 ∈ id <$> comments (view (con w))) →
  ∃ w', for_each us
          (λ u, execute (update_parent u.1 u.2) (update_parent_rows u.2)) w
        = Some (w', Val tt) ∧
    total_changes (con w') = (total_changes (con w) + length us)%nat ∧
    logged w' = logged w.
Proof.
  revert w. induction us as [|[k n] us IH]; intros w Hnd Hin; simpl.
  - eexists. split; [reflexivity|]. split; [lia|done].
  - unfold bind, execute at 1. simpl.
    set (w1 := with_con (store (update_parent k n (view (con w)))
                           (update_parent_rows n (view (con w))) (con w)) w).
    assert (Hv1 : view (con w1) = update_parent k n (view (con w)))
      by apply view_store.
    assert (Hids : id <$> comments (view (con w1))
                   = id <$> comments (view (con w)))
      by (rewrite Hv1; apply ids_update_parent).
    destruct (IH w1) as (w' & Hf & Ht & Hl).
    { by rewrite Hids. }
    { intros u Hu. rewrite Hids. apply Hin. by right. }
    exists w'. split; [exact Hf|]. split; [|done].
    rewrite Ht. unfold w1. simpl. rewrite total_changes_store.
    unfold update_parent_rows. rewrite count_id; [lia|done|].
    apply (Hin (k, n)). left.
Qed.

Lemma body_2_counts fuel w d :
  pending (con w) = Some d → NoDup (id <$> comments d) →
  (length (comments d) < fuel)%nat →
  ∃ w' us, body_2 fuel w = Some (w', Val tt) ∧
    NoDup us ∧
    (∀ k n, (k, n) ∈ us ↔
       top_level (comments d) k ∧ descendant (comments d) k n) ∧
    view (con w') =
      with_version 3 (foldl (λ d u, update_parent u.1 u.2 d) d us) ∧
    (∀ u, u ∈ us → u.2 ∈ id <$> comments d) ∧
    total_changes (con w') = (total_changes (con w) + length us)%nat ∧
    logged w' =
      logged w ++ [RowsChanged (total_changes (con w) + length us)].
Proof.
  intros Hp Hnd Hfuel.
  assert (Hv : view (con w) = d) by (unfold view; by rewrite Hp).
  destruct (collect_finishes fuel (select_top d) ∅ w) as [fl Hc].
  { by rewrite Hv. }
  { intros r Hr. rewrite Hv. by apply elem_of_select_top. }
  { by rewrite Hv. }
  assert (Hus : ∀ k n, (k, n) ∈ issued fl ↔
            top_level (comments d) k ∧ descendant (comments d) k n).
  { intros k n. rewrite elem_of_issued.
    rewrite (collect_collects _ _ _ _ _ _ Hc k n), Hv.
    rewrite lookup_empty. simpl. rewrite elem_of_select_top. split.
    - intros [Hn|?]; [|done]. by apply not_elem_of_empty in Hn.
    - by right. }
  assert (Hrows : ∀ u, u ∈ issued fl → u.2 ∈ id <$> comments d).
  { intros [k n] [_ Hd]%Hus. simpl.
    apply descendant_has_parent in Hd as [p Hp'].
    by eapply child_in_table. }
  destruct (rewrites_count (issued fl) w) as (w2 & Hr & Ht & Hl).
  { by rewrite Hv. }
  { intros u Hu. rewrite Hv. by apply Hrows. }
  destruct (for_each_execute (issued fl)
              (λ u, update_parent u.1 u.2)
              (λ u, update_parent_rows u.2) w) as (w2' & Hr' & Hv2 & _).
  rewrite Hr in Hr'. injection Hr' as <-. rewrite Hv in Hv2.
  eexists _, (issued fl).
  split_and!; [|apply NoDup_issued|done| |done|..].
  - unfold body_2. unfold bind at 1, query. rewrite Hv.
    unfold bind at 1. rewrite Hc.
    unfold bind at 1. rewrite rewrite_parents_issued, Hr.
    apply closing_run.
  - simpl. by rewrite view_store, Hv2.
  - simpl. rewrite total_changes_store, Ht. lia.
  - simpl. rewrite total_changes_store, Ht, Hl. by rewrite Nat.add_0_r.
Qed.

(** X17: each comment under a root is rewritten by exactly one UPDATE.
    On a comments table with distinct ids and an engine that does not
    refuse, the third step returns.  The UPDATE statements it issued
    are those of a list of pairs (new parent, id): the file afterwards
    holds, with version 3, the table found with these statements
    executed on it one after the other.  The list pairs each root with
    each of its descendants, without repetition; each of its
    statements names one row of the table, also after any of the others
    has run, so each changes exactly one row; and the step's log entry
    is the connection's count of changed rows before the step plus the
    number of these statements. *)
Theorem step_2_counts_rewrites (F : faults) (fuel : nat) (w : world) :
  reliable F → pending (con w) = None →
  "comments" ∈ tables (committed (con w)) →
  NoDup (id <$> comments (committed (con w))) →
  (length (comments (committed (con w))) < fuel)%nat →
  ∃ w' us, step_2 F fuel w = Some (w', Val tt) ∧
    NoDup us ∧
    (∀ k n, (k, n) ∈ us ↔
       top_level (comments (committed (con w))) k ∧
       descendant (comments (committed (con w))) k n) ∧
    committed (con w') =
      with_version 3
        (foldl (λ d u, update_parent u.1 u.2 d) (committed (con w)) us) ∧
    (∀ u d, u ∈ us →
       id <$> comments d = id <$> comments (committed (con w)) →
       update_parent_rows u.2 d = 1%nat) ∧
    total_changes (con w') = (total_changes (con w) + length us)%nat ∧
    logged w' =
      logged w ++ [RowsChanged (total_changes (con w) + length us)].
Proof.
  intros HF Hp _ Hnd Hfuel.
  destruct (enter_reliable F w HF Hp) as (w1 & He & Hp1 & _ & Ht1 & Hl1).
  destruct (body_2_counts fuel w1 (committed (con w)) Hp1 Hnd Hfuel)
    as (w2 & us & Hb & Hndus & Hus & Hv2 & Hrows & Ht2 & Hl2).
  destruct (transaction_returned F _ _ _ _ _ _
              (statements_only_body_2 fuel) He Hb)
    as (w3 & r3 & Ht & Hl3 & _ & Ht3 & Hok & _).
  destruct (HF (con w2)) as (_ & Hcommit & _).
  destruct (Hok Hcommit) as (-> & Hc3 & _).
  exists w3, us.
  split_and!; [done|done|done|congruence| |congruence|congruence].
  intros u d Hu Hids. unfold update_parent_rows.
  apply count_id; rewrite Hids; [done|by apply Hrows].
Qed.

Lemma step_2_counts_rewrites_witness :
  ∃ w' (us : list (Z * Z)),
    step_2 no_faults 7 (Sample.start (Sample.db 2)) = Some (w', Val tt) ∧
           NoDup us ∧
           total_changes (con w') = (0 + length us)%nat.
Proof.
  destruct (step_2_counts_rewrites no_faults 7
              (Sample.start (Sample.db 2)))
    as (w' & us & Hs & Hnd & _ & _ & _ & Ht & _).
  - intros c. repeat split.
  - reflexivity.
  - simpl. left.
  - apply (bool_decide_unpack _). vm_compute. exact I.
  - simpl. lia.
  - exists w', us. split_and!; [exact Hs|exact Hnd|exact Ht].
Defined.

(** X18: a commit that raises is not followed by a rollback, but by
    the assignment that restores the isolation level.  When the block
    returned and the commit is refused, the [with] statement raises
    OperationalError with the isolation level restored, and statements
    on the connection still see the block's writes.  If the level to
    restore is [None], the assignment issues a second COMMIT: when
    that one goes through, the file holds the block's writes although
    the statement raised, and no transaction is open.  Otherwise the
    file is as before and the transaction stays open with the writes
    in it, and no further [with] block can be entered on this
    connection. *)
Theorem commit_refused_outcomes {A B} (F F' : faults) (body : M A)
    (body' : M B) (w w1 w2 : world) (orig : option string) (a : A) :
  statements_only body →
  enter F w = Some (w1, Val orig) →
  body w1 = Some (w2, Val a) →
  commit_raises F (con w2) = true →
  ∃ w3, transaction F body w = Some (w3, Exc OperationalError) ∧
    isolation_level (con w3) = isolation_level (con w) ∧
    view (con w3) = view (con w2) ∧
    (orig = None →
     commit_raises F (with_isolation None (con w2)) = false →
       committed (con w3) = view (con w2) ∧ pending (con w3) = None) ∧
    (is_Some orig ∨
     commit_raises F (with_isolation None (con w2)) = true →
       committed (con w3) = committed (con w) ∧
       is_Some (pending (con w3)) ∧
       transaction F' body' w3 =
         Some (World (with_isolation (Some "IMMEDIATE") (con w3))
                 (logged w3),
               Exc OperationalError)).
Proof.
  intros Hso He Hb Hf.
  destruct (enter_inv _ _ _ _ He) as (Hp & -> & Hw1).
  assert (Hin : is_Some (pending (con w1))) by (subst w1; simpl; eauto).
  destruct (Hso _ _ _ Hin Hb) as ([d2 Hp2] & _ & Hc2).
  assert (Hc1 : committed (con w1) = committed (con w)) by by subst w1.
  assert (Hv2 : view (con w2) = d2) by (unfold view; by rewrite Hp2).
  destruct (exit_total F (isolation_level (con w)) false w2)
    as (w3 & r' & Hx).
  destruct (exit_isolation _ _ _ _ _ _ Hx) as [Hi3 _].
  destruct (exit_open _ _ _ _ _ _ _ Hp2 Hx) as (_ & _ & Hko).
  destruct (Hko Hf) as (-> & Hcases).
  exists w3. split.
  { unfold transaction. rewrite He, Hb. simpl. by rewrite Hx. }
  split; [done|].
  destruct Hcases as [(Ho & Hf2 & Hc3 & Hp3)|(Hwhy & Hc3 & Hp3)].
  - split_and!.
    + unfold view at 1. rewrite Hp3. simpl. congruence.
    + intros _ _. split; congruence.
    + intros [[l Hl]|Hf2']; congruence.
  - split_and!.
    + unfold view at 1. rewrite Hp3. simpl. congruence.
    + intros Ho Hf2. destruct Hwhy as [[l Hl]|Hf2']; congruence.
    + intros _. split_and!; [congruence|by rewrite Hp3|].
      unfold transaction, enter, begin_immediate. simpl.
      by rewrite Hp3.
Qed.

Lemma commit_refused_outcomes_witness :
  ∃ w3, transaction Sample.commit_refused_once
          (set_user_version 9) (Sample.start (Sample.db 2))
        = Some (w3, Exc OperationalError) ∧
        user_version (committed (con w3)) = 9 ∧
        pending (con w3) = None.
Proof.
  destruct (commit_refused_outcomes (B := unit)
              Sample.commit_refused_once no_faults
              (set_user_version 9) (ret tt) (Sample.start (Sample.db 2))
              _ _ None tt (statements_only_execute _ _) eq_refl eq_refl
              eq_refl)
    as (w3 & Ht & _ & _ & Hpub & _).
  destruct (Hpub eq_refl eq_refl) as [Hc Hp].
  exists w3. split_and!; [exact Ht|by rewrite Hc|exact Hp].
Defined.

End CountingMore.
